(** * The two-stage RNN of rnn_ipsid_nonlinear.py

    A shallow embedding of the forward passes of [Optim1], [Optim2],
    [Optim3] and [Optim4] and of their helper cells.  Tensors are nested lists indexed (batch, time,
    feature); every tensor operation that PyTorch can reject (indexing past
    the end, a feature width that does not match a layer, shapes that do not
    broadcast, stacking an empty list, concatenating tensors of different
    batch size or length) returns in an error monad.

    The scalar type is a parameter: the code runs on [torch.double], and the
    statements below hold for every scalar type with the operations of
    [Scalar].  [relu] and [sigmoid] stand for [nn.ReLU] and [nn.Sigmoid],
    which are PyTorch's and not this repository's. *)

From Stdlib Require Import List Arith Bool Lia ZArith Floats.
Import ListNotations.

(** ** Scalars *)

Class Scalar (F : Type) : Type := {
  fzero : F;
  fadd : F -> F -> F;
  fmul : F -> F -> F;
  relu : F -> F;
  sigmoid : F -> F
}.

(** The laws of zero used where a claim sets a map to zero.  They speak of
    the values that [finite] accepts only, so that they hold of binary64,
    where the products of zero with an infinity and with a NaN are NaN; and
    they leave [0 + x] alone, which in binary64 is [x] for every [x] but
    [-0]. *)
Class FiniteZeroLaws (F : Type) `{Scalar F} (finite : F -> bool) : Prop := {
  finite_0 : finite fzero = true;
  fadd_0_0 : fadd fzero fzero = fzero;
  fmul_finite_0 : forall x : F, finite x = true -> fadd fzero (fmul x fzero) = fzero
}.
Arguments FiniteZeroLaws F {_} finite.

(** Integers, for running the model on small inputs.  [sigmoid] has no
    integer counterpart; the instance uses the identity, and nothing proved
    below looks inside [relu] or [sigmoid]. *)
#[export] Instance Scalar_Z : Scalar Z := {
  fzero := 0%Z;
  fadd := Z.add;
  fmul := Z.mul;
  relu := Z.max 0%Z;
  sigmoid := fun x => x
}.

#[export] Instance FiniteZeroLaws_Z : FiniteZeroLaws Z (fun _ => true).
Proof.
  split; try reflexivity. intros x _. cbn. now rewrite Z.mul_0_r.
Qed.

(** Binary64, the arithmetic of [torch.double]: Rocq's primitive floats, with
    the IEEE 754 sum and product rounded to nearest.  The primitives have no
    exponential, so [sigmoid] is the identity, as for the integers; the
    instance serves for latent states, which pass through neither [relu]
    nor [sigmoid]. *)
#[export] Instance Scalar_float : Scalar float := {
  fzero := 0%float;
  fadd := PrimFloat.add;
  fmul := PrimFloat.mul;
  relu := fun x => if (x <? 0)%float then 0%float else x;
  sigmoid := fun x => x
}.

(** Neither an infinity nor a NaN. *)
Definition float_finite (x : float) : bool :=
  match Prim2SF x with
  | S754_zero _ | S754_finite _ _ _ => true
  | S754_infinity _ | S754_nan => false
  end.

#[export] Instance FiniteZeroLaws_float : FiniteZeroLaws float float_finite.
Proof.
  split; try reflexivity.
  intros x Hx. cbn. apply Prim2SF_inj. rewrite add_spec, mul_spec.
  unfold float_finite in Hx.
  destruct (Prim2SF x) as [s | s | | s m e]; try discriminate; destruct s; reflexivity.
Qed.

(** ** Errors *)

Inductive error : Type :=
| IndexError      (* an index past the end of a dimension *)
| RuntimeError.   (* a shape that an operation does not accept *)

Inductive result (A : Type) : Type :=
| Ok (a : A)
| Err (e : error).

Arguments Ok {A} a.
Arguments Err {A} e.

Definition bind {A B : Type} (c : result A) (k : A -> result B) : result B :=
  match c with
  | Ok a => k a
  | Err e => Err e
  end.

Declare Scope result_scope.
Delimit Scope result_scope with result.
Notation "x <- c ;; k" := (bind c (fun x => k))
  (at level 61, c at next level, right associativity) : result_scope.
Notation "' p <- c ;; k" := (bind c (fun x => let p := x in k))
  (at level 61, p pattern, c at next level, right associativity) : result_scope.
Open Scope result_scope.

Definition is_err {A : Type} (c : result A) : bool :=
  match c with
  | Ok _ => false
  | Err _ => true
  end.

(** ** Lists *)

Section ListOps.
Context {A B C : Type}.

Fixpoint mapM (f : A -> result B) (l : list A) : result (list B) :=
  match l with
  | [] => Ok []
  | a :: l' => b <- f a ;; bs <- mapM f l' ;; Ok (b :: bs)
  end.

Fixpoint zipWith (f : A -> B -> C) (xs : list A) (ys : list B) : list C :=
  match xs, ys with
  | x :: xs', y :: ys' => f x y :: zipWith f xs' ys'
  | _, _ => []
  end.

(** [for t in ts: st = body(t, st)], stopping at the first error. *)
Fixpoint for_each (body : A -> B -> result B) (ts : list A) (st : B) : result B :=
  match ts with
  | [] => Ok st
  | t :: ts' => st' <- body t st ;; for_each body ts' st'
  end.
End ListOps.

(** [for t in range(n)]. *)
Definition for_range {S : Type} (n : nat) (body : nat -> S -> result S) (st : S) : result S :=
  for_each body (seq 0 n) st.

(** Broadcasting of one dimension, as PyTorch does it for a binary
    elementwise operation: equal sizes pair up, a size of 1 is repeated
    against the other operand, anything else is rejected. *)
Definition bcast {A B C : Type} (f : A -> B -> result C) (xs : list A) (ys : list B)
  : result (list C) :=
  if length xs =? length ys then mapM (fun xy => f (fst xy) (snd xy)) (combine xs ys)
  else match xs, ys with
       | [x], _ => mapM (f x) ys
       | _, [y] => mapM (fun x => f x y) xs
       | _, _ => Err RuntimeError
       end.

(** ** Tensors *)

Abbreviation vec F := (list F) (only parsing).                   (* shape (D) *)
Abbreviation mat F := (list (list F)) (only parsing).            (* shape (B, D) *)
Abbreviation tensor3 F := (list (list (list F))) (only parsing). (* shape (B, T, D) *)

(** [x.size(0)] and [x.size(1)].  The second is read off the first batch
    element, so it is PyTorch's value for a batch size of at least 1. *)
Definition size0 {X : Type} (x : list X) : nat := length x.
Definition size1 {X : Type} (x : list (list X)) : nat :=
  match x with
  | [] => 0
  | m :: _ => length m
  end.

Section Tensors.
Context {F : Type} `{Scalar F}.

Definition has_shape2 (m : mat F) (b d : nat) : bool :=
  (length m =? b) && forallb (fun v => length v =? d) m.
Definition has_shape3 (x : tensor3 F) (b t d : nat) : bool :=
  (length x =? b) && forallb (fun m => has_shape2 m t d) x.

(** [torch.zeros(b, d)] *)
Definition zeros (b d : nat) : mat F := repeat (repeat fzero d) b.

(** [x[:, t, :]] *)
Definition select_t (x : tensor3 F) (t : nat) : result (mat F) :=
  mapM (fun m => match nth_error m t with
                 | Some v => Ok v
                 | None => Err IndexError
                 end) x.

(** [a + b] on vectors and on matrices, with broadcasting. *)
Definition vadd (a b : vec F) : result (vec F) := bcast (fun x y => Ok (fadd x y)) a b.
Definition madd (a b : mat F) : result (mat F) := bcast vadd a b.

(** [torch.stack(ts, dim=1)] of matrices of shape (B, D): the list must
    not be empty and all its members must have the shape of the first. *)
Definition same_shape2 (m m' : mat F) : bool :=
  (length m =? length m') && (size1 m =? size1 m').
Definition stack_dim1 (ts : list (mat F)) : result (tensor3 F) :=
  match ts with
  | [] => Err RuntimeError
  | m0 :: rest =>
      if forallb (same_shape2 m0) rest
      then Ok (fold_right (zipWith cons) (repeat [] (length m0)) ts)
      else Err RuntimeError
  end.

(** [torch.cat((x, x'), dim=2)]: batch size and length must agree. *)
Definition cat_dim2 (x x' : tensor3 F) : result (tensor3 F) :=
  if (size0 x =? size0 x') && (size1 x =? size1 x')
  then Ok (zipWith (zipWith (@app F)) x x')
  else Err RuntimeError.

(** The dot product of an input row with a weight row, summed from the
    left starting at zero. *)
Definition dot (x w : vec F) : F :=
  fold_left (fun acc xw => fadd acc (fmul (fst xw) (snd xw))) (combine x w) fzero.
End Tensors.

(** ** nn.Linear *)

Module Linear.
Section Def.
Context {F : Type} `{Scalar F}.

Record t : Type := mk {
  in_features : nat;
  out_features : nat;
  weight : list (list F);   (* shape (out_features, in_features) *)
  bias : list F             (* shape (out_features) *)
}.

(** What [nn.Linear(i, o)] builds, whatever the values drawn. *)
Definition constructed (L : t) (i o : nat) : bool :=
  (in_features L =? i) && (out_features L =? o)
  && (length (weight L) =? o)
  && forallb (fun r => length r =? i) (weight L)
  && (length (bias L) =? o).

(** One input row: [x W^T + b]. *)
Definition affine (L : t) (x : vec F) : vec F :=
  zipWith (fun w b => fadd (dot x w) b) (weight L) (bias L).

(** [L(x)] for [x] of shape (B, in_features). *)
Definition forward (L : t) (x : mat F) : result (mat F) :=
  mapM (fun row => if length row =? in_features L
                   then Ok (affine L row)
                   else Err RuntimeError) x.

End Def.
Arguments t F : clear implicits.
End Linear.

(** ** Stage 1 *)

Module Optim1Cell.
Section Def.
Context {F : Type} `{Scalar F}.

Record t : Type := mk {
  xNext_size : nat;
  W_A : Linear.t F;
  W_K : Linear.t F;
  W_B : Linear.t F
}.

Definition constructed (c : t) (x_size y_size u_size : nat) : bool :=
  (xNext_size c =? x_size)
  && Linear.constructed (W_A c) x_size x_size
  && Linear.constructed (W_K c) y_size x_size
  && Linear.constructed (W_B c) u_size x_size.

Definition forward (c : t) (xBehav_t y_t u_t : mat F) : result (mat F) :=
  a <- Linear.forward (W_A c) xBehav_t ;;
  k <- Linear.forward (W_K c) y_t ;;
  ak <- madd a k ;;
  b <- Linear.forward (W_B c) u_t ;;
  madd ak b.
End Def.
Arguments t F : clear implicits.
End Optim1Cell.

Module NonlinearOptim1CellZ.
Section Def.
Context {F : Type} `{Scalar F}.

Record t : Type := mk {
  Cz1_lin : Linear.t F;
  Cz1_lin2 : Linear.t F
}.

Definition constructed (c : t) (xBehav_size zhat_size : nat) : bool :=
  Linear.constructed (Cz1_lin c) xBehav_size xBehav_size
  && Linear.constructed (Cz1_lin2 c) xBehav_size zhat_size.

Definition forward (c : t) (xBehav_t : mat F) : result (mat F) :=
  z_pred <- Linear.forward (Cz1_lin c) xBehav_t ;;
  let z_pred := map (map relu) z_pred in
  z_pred <- Linear.forward (Cz1_lin2 c) z_pred ;;
  Ok (map (map sigmoid) z_pred).
End Def.
Arguments t F : clear implicits.
End NonlinearOptim1CellZ.

Module Optim1.
Section Def.
Context {F : Type} `{Scalar F}.

Record t : Type := mk {
  xBehav_size : nat;
  yhat_size : nat;
  rnn_cell : Optim1Cell.t F;
  nonlinear_cellZ : NonlinearOptim1CellZ.t F
}.

Definition constructed (p : t) (xBehav y_size u_size yhat zhat_size : nat) : bool :=
  (xBehav_size p =? xBehav) && (yhat_size p =? yhat)
  && Optim1Cell.constructed (rnn_cell p) xBehav y_size u_size
  && NonlinearOptim1CellZ.constructed (nonlinear_cellZ p) xBehav zhat_size.

(** The loop variables: [xBehav_t], [behavStates], [z_hats1]. *)
Definition loop_state : Type := (mat F * list (mat F) * list (mat F))%type.

Definition body (p : t) (y u : tensor3 F) (t : nat) (st : loop_state)
  : result loop_state :=
  let '(xBehav_t, behavStates, z_hats1) := st in
  let behavStates := behavStates ++ [xBehav_t] in
  y_t <- select_t y t ;;
  u_t <- select_t u t ;;
  x_next <- Optim1Cell.forward (rnn_cell p) xBehav_t y_t u_t ;;
  z_pred <- NonlinearOptim1CellZ.forward (nonlinear_cellZ p) xBehav_t ;;
  let z_hats1 := z_hats1 ++ [z_pred] in
  Ok (x_next, behavStates, z_hats1).

Definition forward (p : t) (y u : tensor3 F) : result (tensor3 F * tensor3 F) :=
  let batch_size := size0 y in
  let seq_len := size1 y in
  let xBehav_t := zeros batch_size (xBehav_size p) in
  st <- for_range seq_len (body p y u) (xBehav_t, [], []) ;;
  let '(_, behavStates, z_hats1) := st in
  behavStates <- stack_dim1 behavStates ;;
  z_hats1 <- stack_dim1 z_hats1 ;;
  Ok (z_hats1, behavStates).
End Def.
Arguments t F : clear implicits.
End Optim1.

Module Optim2.
Section Def.
Context {F : Type} `{Scalar F}.

Record t : Type := mk {
  Cy1_lin : Linear.t F;
  Cy1_lin2 : Linear.t F
}.

Definition constructed (p : t) (xBehav_size yhat_size : nat) : bool :=
  Linear.constructed (Cy1_lin p) xBehav_size xBehav_size
  && Linear.constructed (Cy1_lin2 p) xBehav_size yhat_size.

(** One pass of the loop; the loop variable is [y_hats1]. *)
Definition body (p : t) (xBehav_t : tensor3 F) (t : nat) (y_hats1 : list (mat F))
  : result (list (mat F)) :=
  x_t <- select_t xBehav_t t ;;
  y_pred <- Linear.forward (Cy1_lin p) x_t ;;
  let y_pred := map (map relu) y_pred in
  y_pred <- Linear.forward (Cy1_lin2 p) y_pred ;;
  let y_pred := map (map sigmoid) y_pred in
  Ok (y_hats1 ++ [y_pred]).

Definition forward (p : t) (xBehav_t : tensor3 F) : result (tensor3 F) :=
  let seq_len := size1 xBehav_t in
  y_hats1 <- for_range seq_len (body p xBehav_t) [] ;;
  stack_dim1 y_hats1.
End Def.
Arguments t F : clear implicits.
End Optim2.

(** ** Stage 2 *)

Module Optim3Cell.
Section Def.
Context {F : Type} `{Scalar F}.

Record t : Type := mk {
  W_A : Linear.t F;
  W_K : Linear.t F;
  W_B : Linear.t F
}.

Definition constructed (c : t) (xBehavioral_size xNeural_size y_size u_size : nat)
  : bool :=
  Linear.constructed (W_A c) xNeural_size xNeural_size
  && Linear.constructed (W_K c) (y_size + xBehavioral_size) xNeural_size
  && Linear.constructed (W_B c) u_size xNeural_size.

Definition forward (c : t) (xNeural_t yAndxBehav_t u_t : mat F) : result (mat F) :=
  a <- Linear.forward (W_A c) xNeural_t ;;
  k <- Linear.forward (W_K c) yAndxBehav_t ;;
  ak <- madd a k ;;
  b <- Linear.forward (W_B c) u_t ;;
  madd ak b.
End Def.
Arguments t F : clear implicits.
End Optim3Cell.

Module NonlinearOptim3CellY.
Section Def.
Context {F : Type} `{Scalar F}.

Record t : Type := mk {
  Cy2_lin : Linear.t F;
  Cy2_lin2 : Linear.t F
}.

Definition constructed (c : t) (xNeural_size yhat_size : nat) : bool :=
  Linear.constructed (Cy2_lin c) xNeural_size xNeural_size
  && Linear.constructed (Cy2_lin2 c) xNeural_size yhat_size.

Definition forward (c : t) (xNeural_t : mat F) : result (mat F) :=
  y_pred <- Linear.forward (Cy2_lin c) xNeural_t ;;
  let y_pred := map (map relu) y_pred in
  y_pred <- Linear.forward (Cy2_lin2 c) y_pred ;;
  Ok (map (map sigmoid) y_pred).
End Def.
Arguments t F : clear implicits.
End NonlinearOptim3CellY.

Module Optim3.
Section Def.
Context {F : Type} `{Scalar F}.

Record t : Type := mk {
  xNeural_size : nat;
  zhat_size : nat;
  rnn_cell : Optim3Cell.t F;
  nonlinear_cellY : NonlinearOptim3CellY.t F
}.

Definition constructed (p : t)
  (xBehavioral_size xNeural y_size u_size yhat_size zhat : nat) : bool :=
  (xNeural_size p =? xNeural) && (zhat_size p =? zhat)
  && Optim3Cell.constructed (rnn_cell p) xBehavioral_size xNeural y_size u_size
  && NonlinearOptim3CellY.constructed (nonlinear_cellY p) xNeural yhat_size.

(** The loop variables: [xNeural_t], [xNeural_states], [y_hats2]. *)
Definition loop_state : Type := (mat F * list (mat F) * list (mat F))%type.

Definition body (p : t) (yAndxBehav u : tensor3 F) (t : nat) (st : loop_state)
  : result loop_state :=
  let '(xNeural_t, xNeural_states, y_hats2) := st in
  let xNeural_states := xNeural_states ++ [xNeural_t] in
  yAndxBehav_t <- select_t yAndxBehav t ;;
  u_t <- select_t u t ;;
  x_next <- Optim3Cell.forward (rnn_cell p) xNeural_t yAndxBehav_t u_t ;;
  y_pred <- NonlinearOptim3CellY.forward (nonlinear_cellY p) xNeural_t ;;
  let y_hats2 := y_hats2 ++ [y_pred] in
  Ok (x_next, xNeural_states, y_hats2).

Definition forward (p : t) (behavStates y u : tensor3 F)
  : result (tensor3 F * tensor3 F) :=
  let batch_size := size0 y in
  let seq_len := size1 y in
  let xNeural_t := zeros batch_size (xNeural_size p) in
  yAndxBehav <- cat_dim2 y behavStates ;;
  st <- for_range seq_len (body p yAndxBehav u) (xNeural_t, [], []) ;;
  let '(_, xNeural_states, y_hats2) := st in
  y_hats2 <- stack_dim1 y_hats2 ;;
  xNeural_states <- stack_dim1 xNeural_states ;;
  Ok (y_hats2, xNeural_states).
End Def.
Arguments t F : clear implicits.
End Optim3.

Module Optim4.
Section Def.
Context {F : Type} `{Scalar F}.

Record t : Type := mk {
  Cz2_lin : Linear.t F;
  Cz2_lin2 : Linear.t F
}.

Definition constructed (p : t) (xNeural_size zhat_size : nat) : bool :=
  Linear.constructed (Cz2_lin p) xNeural_size xNeural_size
  && Linear.constructed (Cz2_lin2 p) xNeural_size zhat_size.

(** One pass of the loop; the loop variable is [z_hats2]. *)
Definition body (p : t) (xNeural_t : tensor3 F) (t : nat) (z_hats2 : list (mat F))
  : result (list (mat F)) :=
  x_t <- select_t xNeural_t t ;;
  z_pred <- Linear.forward (Cz2_lin p) x_t ;;
  let z_pred := map (map relu) z_pred in
  z_pred <- Linear.forward (Cz2_lin2 p) z_pred ;;
  let z_pred := map (map sigmoid) z_pred in
  Ok (z_hats2 ++ [z_pred]).

Definition forward (p : t) (xNeural_t : tensor3 F) : result (tensor3 F) :=
  let seq_len := size1 xNeural_t in
  z_hats2 <- for_range seq_len (body p xNeural_t) [] ;;
  stack_dim1 z_hats2.
End Def.
Arguments t F : clear implicits.
End Optim4.

(** ** The recurrences in the spec's words

    One batch element at a time: [yb] and [ub] are the rows over time of one
    batch element of [y] and [u]. *)

Section Recurrence.
Context {F : Type} `{Scalar F}.

(** Elementwise sum of two vectors of one width. *)
Definition vsum (a b : vec F) : vec F := zipWith fadd a b.

(** [A x + K y + B u], each map with its bias. *)
Definition x_update (A K B : Linear.t F) (x y u : vec F) : vec F :=
  vsum (vsum (Linear.affine A x) (Linear.affine K y)) (Linear.affine B u).

(** The update with the input-gain term left out. *)
Definition x_update_no_input (A K : Linear.t F) (x y : vec F) : vec F :=
  vsum (Linear.affine A x) (Linear.affine K y).

(** linear, ReLU, linear, sigmoid. *)
Definition decoder (lin lin2 : Linear.t F) (x : vec F) : vec F :=
  map sigmoid (Linear.affine lin2 (map relu (Linear.affine lin x))).

(** [x[0] = 0], [x[t+1] = A x[t] + K y[t] + B u[t]]. *)
Fixpoint states (A K B : Linear.t F) (x_size : nat) (yb ub : list (vec F)) (t : nat)
  : vec F :=
  match t with
  | 0 => repeat fzero x_size
  | S t' => x_update A K B (states A K B x_size yb ub t') (nth t' yb []) (nth t' ub [])
  end.
End Recurrence.

(** The Stage-1 recurrence and readout of one batch element. *)
Definition Optim1_states {F : Type} `{Scalar F} (p : Optim1.t F)
  (yb ub : list (vec F)) (t : nat) : vec F :=
  states (Optim1Cell.W_A (Optim1.rnn_cell p)) (Optim1Cell.W_K (Optim1.rnn_cell p))
    (Optim1Cell.W_B (Optim1.rnn_cell p)) (Optim1.xBehav_size p) yb ub t.

Definition Optim1_decoder {F : Type} `{Scalar F} (p : Optim1.t F) (x : vec F) : vec F :=
  decoder (NonlinearOptim1CellZ.Cz1_lin (Optim1.nonlinear_cellZ p))
    (NonlinearOptim1CellZ.Cz1_lin2 (Optim1.nonlinear_cellZ p)) x.

(** The loop of [Optim3.forward] is the loop of [Optim1.forward] under
    other names: the Stage-2 parameters, laid out as Stage-1 parameters.
    Used in proofs only, to carry the Stage-1 lemmas over to Stage 2. *)
Definition Optim3_as_Optim1 {F : Type} `{Scalar F} (p : Optim3.t F) : Optim1.t F :=
  Optim1.mk (Optim3.xNeural_size p) (Optim3.zhat_size p)
    (Optim1Cell.mk (Optim3.xNeural_size p)
       (Optim3Cell.W_A (Optim3.rnn_cell p))
       (Optim3Cell.W_K (Optim3.rnn_cell p))
       (Optim3Cell.W_B (Optim3.rnn_cell p)))
    (NonlinearOptim1CellZ.mk
       (NonlinearOptim3CellY.Cy2_lin (Optim3.nonlinear_cellY p))
       (NonlinearOptim3CellY.Cy2_lin2 (Optim3.nonlinear_cellY p))).

(** ** Small instances over the integers *)

(** [xBehav_size = 2], [y_size = 1], [u_size = 1], [zhat_size = 1]. *)
Definition p_ex : Optim1.t Z :=
  Optim1.mk 2 1
    (Optim1Cell.mk 2 (Linear.mk 2 2 [[1;0];[1;1]]%Z [0;1]%Z)
                     (Linear.mk 1 2 [[2];[3]]%Z [1;0]%Z)
                     (Linear.mk 1 2 [[1];[-1]]%Z [0;0]%Z))
    (NonlinearOptim1CellZ.mk (Linear.mk 2 2 [[1;-1];[0;1]]%Z [0;0]%Z)
                             (Linear.mk 2 1 [[1;1]]%Z [5]%Z)).

(** Shape (2, 3, 1). *)
Definition y_ex : tensor3 Z := [[[1];[2];[3]];[[0];[1];[0]]]%Z.
Definition u_ex : tensor3 Z := [[[1];[0];[1]];[[2];[2];[2]]]%Z.

(** Shape (1, 8, 1). *)
Definition y8_ex : tensor3 Z := [[[1];[2];[3];[4];[5];[6];[7];[8]]]%Z.
Definition u8_ex : tensor3 Z := [[[1];[0];[1];[0];[2];[0];[3];[0]]]%Z.

(** A second pair of shape (2, 3, 1). *)
Definition y_ex' : tensor3 Z := [[[7];[7];[7]];[[-1];[4];[9]]]%Z.
Definition u_ex' : tensor3 Z := [[[0];[0];[0]];[[5];[6];[7]]]%Z.



(** [xBehav_size = 1], [y_size = 1], [u_size = 0]: [W_B] has a weight of
    shape (1, 0) and a bias of shape (1); inputs of shape (1, 2, 1) and
    (1, 2, 0). *)
Definition p_nou_ex : Optim1.t Z :=
  Optim1.mk 1 1
    (Optim1Cell.mk 1 (Linear.mk 1 1 [[1]]%Z [0]%Z) (Linear.mk 1 1 [[1]]%Z [0]%Z)
       (Linear.mk 0 1 [[]] [1]%Z))
    (NonlinearOptim1CellZ.mk (Linear.mk 1 1 [[1]]%Z [0]%Z) (Linear.mk 1 1 [[1]]%Z [0]%Z)).
Definition y_nou_ex : tensor3 Z := [[[1];[1]]]%Z.
Definition u_nou_ex : tensor3 Z := [[[];[]]].

(** [xBehavioral_size = 2], [xNeural_size = 1], [y_size = 1], [u_size = 1]:
    [W_K] reads [y] in its first column and the behavioral state in the other
    two. *)
Definition p3_ex : Optim3.t Z :=
  Optim3.mk 1 1
    (Optim3Cell.mk (Linear.mk 1 1 [[2]]%Z [0]%Z)
                   (Linear.mk 3 1 [[1;10;100]]%Z [0]%Z)
                   (Linear.mk 1 1 [[1]]%Z [1]%Z))
    (NonlinearOptim3CellY.mk (Linear.mk 1 1 [[1]]%Z [0]%Z) (Linear.mk 1 1 [[1]]%Z [0]%Z)).

(** Behavioral states of shape (2, 3, 2). *)
Definition behav_ex : tensor3 Z := [[[0;0];[4;3];[9;14]];[[0;0];[3;-1];[8;4]]]%Z.

(** Input streams that disagree with [y_ex], of shape (2, 3, 1): one step
    longer, one step shorter, and with a batch size of 1. *)
Definition u_long_ex : tensor3 Z := [[[1];[0];[1];[7]];[[2];[2];[2];[9]]]%Z.
Definition u_short_ex : tensor3 Z := [[[1];[0]];[[2];[2]]]%Z.
Definition u_one_ex : tensor3 Z := [[[1];[0];[1]]]%Z.

(** One batch element of one and of two time steps, shapes (1, 1, 1) and
    (1, 2, 1), against input streams of batch size 2, shapes (2, 1, 1) and
    (2, 2, 1). *)
Definition y_b1_t1_ex : tensor3 Z := [[[1]]]%Z.
Definition u_b2_t1_ex : tensor3 Z := [[[1]];[[2]]]%Z.
Definition y_b1_t2_ex : tensor3 Z := [[[1];[2]]]%Z.
Definition u_b2_t2_ex : tensor3 Z := [[[1];[0]];[[2];[2]]]%Z.

(** [Optim4.forward] is [Optim2.forward] under other names.  Used in proofs
    only. *)
Definition Optim4_as_Optim2 {F : Type} `{Scalar F} (p : Optim4.t F) : Optim2.t F :=
  Optim2.mk (Optim4.Cz2_lin p) (Optim4.Cz2_lin2 p).

(** The readouts of [Optim2], [Optim3] and [Optim4], one state at a time. *)
Definition Optim2_decoder {F : Type} `{Scalar F} (p : Optim2.t F) (x : vec F) : vec F :=
  decoder (Optim2.Cy1_lin p) (Optim2.Cy1_lin2 p) x.

Definition Optim3_decoder {F : Type} `{Scalar F} (p : Optim3.t F) (x : vec F) : vec F :=
  decoder (NonlinearOptim3CellY.Cy2_lin (Optim3.nonlinear_cellY p))
    (NonlinearOptim3CellY.Cy2_lin2 (Optim3.nonlinear_cellY p)) x.

Definition Optim4_decoder {F : Type} `{Scalar F} (p : Optim4.t F) (x : vec F) : vec F :=
  decoder (Optim4.Cz2_lin p) (Optim4.Cz2_lin2 p) x.

(** [xBehav_size = 2], [yhat_size = 1]. *)
Definition p2_ex : Optim2.t Z :=
  Optim2.mk (Linear.mk 2 2 [[1;1];[0;-1]]%Z [0;1]%Z) (Linear.mk 2 1 [[2;1]]%Z [3]%Z).

(** [xNeural_size = 1], [zhat_size = 1]. *)
Definition p4_ex : Optim4.t Z :=
  Optim4.mk (Linear.mk 1 1 [[-1]]%Z [2]%Z) (Linear.mk 1 1 [[3]]%Z [1]%Z).

(** Shapes (2, 0, 1) and (2, 0, 2): two batch elements, no time step. *)
Definition y_empty_ex : tensor3 Z := [[];[]].
Definition behav_empty_ex : tensor3 Z := [[];[]].

(** [y_ex] and [u_ex] with their last time step changed. *)
Definition y_last_ex : tensor3 Z := [[[1];[2];[50]];[[0];[1];[60]]]%Z.
Definition u_last_ex : tensor3 Z := [[[1];[0];[70]];[[2];[2];[80]]]%Z.

(** Behavioral states of shape (2, 3, 2) that differ from [behav_ex] in the
    last step. *)
Definition behav_last_ex : tensor3 Z := [[[0;0];[4;3];[1;1]];[[0;0];[3;-1];[2;2]]]%Z.

(** The same concatenation as [y_ex] with [behav_ex], split after two
    columns instead of one: shapes (2, 3, 2) and (2, 3, 1). *)
Definition y_wide_ex : tensor3 Z := [[[1;0];[2;4];[3;9]];[[0;0];[1;3];[0;8]]]%Z.
Definition behav_narrow_ex : tensor3 Z := [[[0];[3];[14]];[[0];[-1];[4]]]%Z.

(** * Lemmas *)

(** ** Lists and the error monad *)

Section ListLemmas.
Context {A B C : Type}.

Lemma mapM_ok_map {X : Type} (f : A -> result B) (h : X -> A) (g : X -> B) (l : list X) :
  (forall a, In a l -> f (h a) = Ok (g a)) ->
  mapM f (map h l) = Ok (map g l).
Proof.
  induction l as [|a l IH]; intros Hf; simpl.
  - reflexivity.
  - rewrite (Hf a (or_introl eq_refl)); simpl.
    rewrite IH by (intros a' Ha'; apply Hf; right; exact Ha').
    reflexivity.
Qed.

Lemma mapM_ok (f : A -> result B) (g : A -> B) (l : list A) :
  (forall a, In a l -> f a = Ok (g a)) ->
  mapM f l = Ok (map g l).
Proof.
  intros Hf. rewrite <- (map_id l) at 1. now apply mapM_ok_map.
Qed.

Lemma zipWith_length (f : A -> B -> C) (xs : list A) (ys : list B) :
  length (zipWith f xs ys) = Nat.min (length xs) (length ys).
Proof.
  revert ys; induction xs as [|x xs IH]; intros [|y ys]; simpl; auto.
Qed.

Lemma zipWith_in (f : A -> B -> C) (xs : list A) (ys : list B) (c : C) :
  In c (zipWith f xs ys) -> exists a b, In a xs /\ In b ys /\ c = f a b.
Proof.
  revert ys; induction xs as [|x xs IH]; intros [|y ys]; simpl; try tauto.
  intros [<- | Hin].
  - exists x, y. auto.
  - destruct (IH ys Hin) as (a & b & Ha & Hb & ->). exists a, b. auto.
Qed.

Lemma zipWith_map_same {X : Type} (h : A -> B -> C) (f : X -> A) (g : X -> B)
  (l : list X) :
  zipWith h (map f l) (map g l) = map (fun a => h (f a) (g a)) l.
Proof.
  induction l as [|a l IH]; simpl; [reflexivity | now rewrite IH].
Qed.

Lemma zipWith_nth (f : A -> B -> C) (xs : list A) (ys : list B) (n : nat)
  (da : A) (db : B) (dc : C) :
  n < length xs -> n < length ys ->
  nth n (zipWith f xs ys) dc = f (nth n xs da) (nth n ys db).
Proof.
  revert ys n; induction xs as [|x xs IH]; intros [|y ys] [|n]; simpl; intros Hx Hy;
    try lia; [reflexivity | apply IH; lia].
Qed.

Lemma nth_map_lt (f : A -> B) (l : list A) (n : nat) (da : A) (db : B) :
  n < length l -> nth n (map f l) db = f (nth n l da).
Proof.
  revert n; induction l as [|a l IH]; intros [|n]; simpl; intros Hn;
    try lia; [reflexivity | apply IH; lia].
Qed.

Lemma for_each_app (body : A -> B -> result B) (l1 l2 : list A) (st : B) :
  for_each body (l1 ++ l2) st = (st' <- for_each body l1 st ;; for_each body l2 st').
Proof.
  revert st; induction l1 as [|a l1 IH]; intros st; simpl.
  - reflexivity.
  - destruct (body a st) as [st'|e]; simpl; [apply IH | reflexivity].
Qed.

Lemma for_each_ext (body body' : A -> B -> result B) (l : list A) (st : B) :
  (forall a s, body a s = body' a s) ->
  for_each body l st = for_each body' l st.
Proof.
  intros Hb; revert st; induction l as [|a l IH]; intros st; simpl.
  - reflexivity.
  - rewrite Hb. destruct (body' a st); simpl; [apply IH | reflexivity].
Qed.

(** A step that fails from every state makes the loop fail. *)
Lemma for_each_fails_at (body : A -> B -> result B) (ts : list A) (t : A) (st : B) :
  In t ts -> (forall s, is_err (body t s) = true) ->
  is_err (for_each body ts st) = true.
Proof.
  intros Hin Hfail. revert st.
  induction ts as [|a ts IH]; intros st; [destruct Hin|]. simpl.
  destruct Hin as [-> | Hin].
  - specialize (Hfail st). now destruct (body t st).
  - destruct (body a st) as [st'|e]; simpl; [now apply IH | reflexivity].
Qed.
End ListLemmas.

(** Stacking along a new middle axis transposes the list of matrices. *)
Lemma transpose_maps {X J E : Type} (g : J -> X -> E) (ks : list J) (l : list X) :
  fold_right (zipWith cons) (repeat [] (length l)) (map (fun j => map (g j) l) ks)
  = map (fun a => map (fun j => g j a) ks) l.
Proof.
  induction ks as [|k ks IH]; simpl.
  - now rewrite map_const.
  - rewrite IH. apply zipWith_map_same.
Qed.

Lemma combine_fst_snd {X Y : Type} (xs : list X) (ys : list Y) :
  length xs = length ys ->
  map fst (combine xs ys) = xs /\ map snd (combine xs ys) = ys.
Proof.
  revert ys; induction xs as [|x xs IH]; intros [|y ys]; simpl; intros Hl;
    try discriminate; [now split|].
  destruct (IH ys) as [H1 H2]; [lia|]. now rewrite H1, H2.
Qed.

(** ** Tensor operations on well-shaped operands *)

Section TensorLemmas.
Context {F : Type} `{Scalar F}.

Lemma has_shape2_spec (m : mat F) (b d : nat) :
  has_shape2 m b d = true <-> length m = b /\ forall v, In v m -> length v = d.
Proof.
  unfold has_shape2. rewrite andb_true_iff, Nat.eqb_eq, forallb_forall.
  split; intros [Hl Hv]; split; auto; intros v Hin; apply Nat.eqb_eq; auto.
Qed.

Lemma has_shape3_spec (x : tensor3 F) (b t d : nat) :
  has_shape3 x b t d = true <->
  length x = b /\ forall m, In m x -> length m = t /\ forall v, In v m -> length v = d.
Proof.
  unfold has_shape3. rewrite andb_true_iff, Nat.eqb_eq, forallb_forall.
  split; intros [Hl Hm]; split; auto; intros m Hin; apply has_shape2_spec; auto.
Qed.

Lemma has_shape3_size1 (x : tensor3 F) (b t d : nat) :
  has_shape3 x b t d = true -> 1 <= b -> size1 x = t.
Proof.
  intros Hx Hb. apply has_shape3_spec in Hx as [Hl Hm].
  destruct x as [|m x]; simpl in *; [lia|]. now apply Hm; left.
Qed.

Lemma has_shape3_row (x : tensor3 F) (b t d : nat) (m : mat F) (j : nat) :
  has_shape3 x b t d = true -> In m x -> j < t -> length (nth j m []) = d.
Proof.
  intros Hx Hin Hj. apply has_shape3_spec in Hx as [_ Hm].
  destruct (Hm m Hin) as [Hlen Hv]. apply Hv, nth_In. lia.
Qed.

Lemma select_t_ok (x : tensor3 F) (b t d j : nat) :
  has_shape3 x b t d = true -> j < t ->
  select_t x j = Ok (map (fun m => nth j m []) x).
Proof.
  intros Hx Hj. apply has_shape3_spec in Hx as [_ Hm].
  apply mapM_ok. intros m Hin. destruct (Hm m Hin) as [Hlen _].
  destruct (nth_error m j) as [v|] eqn:E.
  - now rewrite (nth_error_nth _ _ [] E).
  - apply nth_error_None in E. lia.
Qed.

Lemma select_t_past (x : tensor3 F) (b t d j : nat) :
  has_shape3 x b t d = true -> 1 <= b -> t <= j ->
  select_t x j = Err IndexError.
Proof.
  intros Hx Hb Hj. apply has_shape3_spec in Hx as [Hl Hm].
  destruct x as [|m x]; simpl in *; [lia|].
  destruct (Hm m (or_introl eq_refl)) as [Hlen _].
  unfold select_t; simpl.
  destruct (nth_error m j) as [v|] eqn:E; [|reflexivity].
  assert (j < length m) by (apply nth_error_Some; congruence). lia.
Qed.

Lemma vadd_ok (a b : vec F) :
  length a = length b -> vadd a b = Ok (vsum a b).
Proof.
  intros Hl. unfold vadd, bcast. rewrite (proj2 (Nat.eqb_eq _ _) Hl).
  clear Hl. revert b; induction a as [|x a IH]; intros [|y b]; simpl; try reflexivity.
  now rewrite IH.
Qed.

Lemma madd_map_same {X : Type} (f g : X -> vec F) (l : list X) :
  (forall a, In a l -> length (f a) = length (g a)) ->
  madd (map f l) (map g l) = Ok (map (fun a => vsum (f a) (g a)) l).
Proof.
  intros Hl. unfold madd, bcast. rewrite !length_map, Nat.eqb_refl.
  induction l as [|a l IH]; simpl; [reflexivity|].
  rewrite vadd_ok by (apply Hl; now left). simpl.
  rewrite IH by (intros a' Ha'; apply Hl; now right). reflexivity.
Qed.

(** Adding matrices whose batch sizes differ and are both at least 2. *)
Lemma madd_batch_mismatch (a b : mat F) :
  length a <> length b -> 2 <= length a -> 2 <= length b ->
  madd a b = Err RuntimeError.
Proof.
  intros Hne Ha Hb. unfold madd, bcast.
  rewrite (proj2 (Nat.eqb_neq _ _) Hne).
  destruct a as [|x [|x' a]]; simpl in *; try lia.
  destruct b as [|y [|y' b]]; simpl in *; try lia. reflexivity.
Qed.

Lemma affine_length (L : Linear.t F) (i o : nat) (x : vec F) :
  Linear.constructed L i o = true -> length (Linear.affine L x) = o.
Proof.
  unfold Linear.constructed, Linear.affine.
  rewrite !andb_true_iff, !Nat.eqb_eq. intros [[[[_ _] Hw] _] Hb].
  rewrite zipWith_length. lia.
Qed.

Lemma constructed_in_features (L : Linear.t F) (i o : nat) :
  Linear.constructed L i o = true -> Linear.in_features L = i.
Proof.
  unfold Linear.constructed.
  rewrite !andb_true_iff, !Nat.eqb_eq. now intros [[[[Hi _] _] _] _].
Qed.

Lemma linear_forward_map {X : Type} (L : Linear.t F) (f : X -> vec F) (l : list X) :
  (forall a, In a l -> length (f a) = Linear.in_features L) ->
  Linear.forward L (map f l) = Ok (map (fun a => Linear.affine L (f a)) l).
Proof.
  intros Hl. unfold Linear.forward. apply mapM_ok_map.
  intros a Ha. now rewrite (Hl a Ha), Nat.eqb_refl.
Qed.

(** A layer rejects a non-empty batch of rows of the wrong width. *)
Lemma linear_forward_width {X : Type} (L : Linear.t F) (f : X -> vec F) (l : list X) :
  l <> [] ->
  (forall a, In a l -> length (f a) <> Linear.in_features L) ->
  Linear.forward L (map f l) = Err RuntimeError.
Proof.
  intros Hne Hl. destruct l as [|a l]; [congruence|].
  unfold Linear.forward. simpl.
  now rewrite (proj2 (Nat.eqb_neq _ _) (Hl a (or_introl eq_refl))).
Qed.

Lemma x_update_length (A K B : Linear.t F) (ia ik ib o : nat) (x y u : vec F) :
  Linear.constructed A ia o = true ->
  Linear.constructed K ik o = true ->
  Linear.constructed B ib o = true ->
  length (x_update A K B x y u) = o.
Proof.
  intros HA HK HB. unfold x_update, vsum.
  rewrite !zipWith_length.
  rewrite (affine_length _ _ _ _ HA), (affine_length _ _ _ _ HK), (affine_length _ _ _ _ HB). lia.
Qed.

Lemma states_length (A K B : Linear.t F) (ia ik ib o : nat) (yb ub : list (vec F))
  (t : nat) :
  Linear.constructed A ia o = true ->
  Linear.constructed K ik o = true ->
  Linear.constructed B ib o = true ->
  length (states A K B o yb ub t) = o.
Proof.
  intros HA HK HB. destruct t as [|t]; simpl.
  - apply repeat_length.
  - eapply x_update_length; eassumption.
Qed.

Lemma decoder_length (lin lin2 : Linear.t F) (i o : nat) (x : vec F) :
  Linear.constructed lin2 i o = true -> length (decoder lin lin2 x) = o.
Proof.
  intros H2. unfold decoder. rewrite length_map. now apply affine_length with (i := i).
Qed.

Lemma stack_dim1_maps {X J : Type} (g : J -> X -> vec F) (ks : list J) (l : list X)
  (w : nat) :
  ks <> [] ->
  (forall j a, In j ks -> In a l -> length (g j a) = w) ->
  stack_dim1 (map (fun j => map (g j) l) ks)
  = Ok (map (fun a => map (fun j => g j a) ks) l).
Proof.
  intros Hne Hw. destruct ks as [|k ks]; [congruence|].
  unfold stack_dim1. cbn [map].
  assert (Hall : forallb (same_shape2 (map (g k) l))
                   (map (fun j => map (g j) l) ks) = true).
  { apply forallb_forall. intros m Hm. apply in_map_iff in Hm as [j [<- Hj]].
    unfold same_shape2. rewrite !length_map, Nat.eqb_refl. simpl.
    destruct l as [|a l]; simpl; [reflexivity|].
    apply Nat.eqb_eq.
    rewrite (Hw k a), (Hw j a); simpl; auto. }
  rewrite Hall, length_map.
  change (map (g k) l :: map (fun j => map (g j) l) ks)
    with (map (fun j => map (g j) l) (k :: ks)).
  now rewrite transpose_maps.
Qed.

Lemma cat_dim2_ok (x x' : tensor3 F) (b t d d' : nat) :
  has_shape3 x b t d = true -> has_shape3 x' b t d' = true -> 1 <= b ->
  cat_dim2 x x' = Ok (zipWith (zipWith (@app F)) x x').
Proof.
  intros Hx Hx' Hb. unfold cat_dim2.
  rewrite (has_shape3_size1 _ _ _ _ Hx Hb), (has_shape3_size1 _ _ _ _ Hx' Hb).
  apply has_shape3_spec in Hx as [Hl _]. apply has_shape3_spec in Hx' as [Hl' _].
  unfold size0. now rewrite Hl, Hl', !Nat.eqb_refl.
Qed.
End TensorLemmas.

(** ** The Stage-1 loop *)

Section Stage1Run.
Context {F : Type} `{Scalar F}.
Variables (p : Optim1.t F) (xb dy du yh dz : nat).
Hypothesis Hp : Optim1.constructed p xb dy du yh dz = true.
Variables (y u : tensor3 F) (b ty tu : nat).
Hypothesis Hy : has_shape3 y b ty dy = true.
Hypothesis Hu : has_shape3 u b tu du = true.

Lemma Optim1_constructed_parts :
  Optim1.xBehav_size p = xb
  /\ Linear.constructed (Optim1Cell.W_A (Optim1.rnn_cell p)) xb xb = true
  /\ Linear.constructed (Optim1Cell.W_K (Optim1.rnn_cell p)) dy xb = true
  /\ Linear.constructed (Optim1Cell.W_B (Optim1.rnn_cell p)) du xb = true
  /\ Linear.constructed (NonlinearOptim1CellZ.Cz1_lin (Optim1.nonlinear_cellZ p)) xb xb
     = true
  /\ Linear.constructed (NonlinearOptim1CellZ.Cz1_lin2 (Optim1.nonlinear_cellZ p)) xb dz
     = true.
Proof.
  revert Hp.
  unfold Optim1.constructed, Optim1Cell.constructed, NonlinearOptim1CellZ.constructed.
  rewrite !andb_true_iff, !Nat.eqb_eq. tauto.
Qed.

(** The batch elements of [y] and [u], paired. *)
Let inputs : list (list (vec F) * list (vec F)) := combine y u.

(** The state and the prediction of step [j], for the whole batch. *)
Let X (j : nat) : mat F := map (fun io => Optim1_states p (fst io) (snd io) j) inputs.
Let Z (j : nat) : mat F :=
  map (fun io => Optim1_decoder p (Optim1_states p (fst io) (snd io) j)) inputs.

Lemma inputs_length : length inputs = b.
Proof.
  apply has_shape3_spec in Hy as [Hly _]. apply has_shape3_spec in Hu as [Hlu _].
  unfold inputs. rewrite length_combine. lia.
Qed.

Lemma inputs_fst_snd : map fst inputs = y /\ map snd inputs = u.
Proof.
  apply has_shape3_spec in Hy as [Hly _]. apply has_shape3_spec in Hu as [Hlu _].
  apply combine_fst_snd. lia.
Qed.

Lemma Optim1_states_length (yb ub : list (vec F)) (j : nat) :
  length (Optim1_states p yb ub j) = xb.
Proof.
  destruct Optim1_constructed_parts as (Hx & HA & HK & HB & _).
  unfold Optim1_states. rewrite Hx.
  now apply states_length with (ia := xb) (ik := dy) (ib := du).
Qed.

Lemma X_0 : X 0 = zeros b (Optim1.xBehav_size p).
Proof.
  unfold X, zeros, Optim1_states. cbn [states].
  now rewrite map_const, inputs_length.
Qed.

Lemma body_step (j : nat) (Bs Zs : list (mat F)) :
  j < ty -> j < tu ->
  Optim1.body p y u j (X j, Bs, Zs) = Ok (X (S j), Bs ++ [X j], Zs ++ [Z j]).
Proof.
  intros Hjy Hju.
  destruct Optim1_constructed_parts as (Hx & HA & HK & HB & Hl1 & Hl2).
  destruct inputs_fst_snd as [Hfst Hsnd].
  unfold Optim1.body.
  rewrite (select_t_ok y b ty dy j Hy Hjy), (select_t_ok u b tu du j Hu Hju).
  cbn [bind].
  rewrite <- Hfst, <- Hsnd, !map_map.
  unfold Optim1Cell.forward, X.
  rewrite linear_forward_map.
  2:{ intros io _. rewrite Optim1_states_length.
      symmetry; eapply constructed_in_features; eassumption. }
  cbn [bind]. rewrite linear_forward_map.
  2:{ intros io Hio. rewrite (constructed_in_features _ _ _ HK).
      apply (has_shape3_row y b ty dy); auto.
      rewrite <- Hfst. now apply in_map. }
  cbn [bind]. rewrite madd_map_same.
  2:{ intros io _.
      now rewrite (affine_length _ _ _ _ HA), (affine_length _ _ _ _ HK). }
  cbn [bind]. rewrite linear_forward_map.
  2:{ intros io Hio. rewrite (constructed_in_features _ _ _ HB).
      apply (has_shape3_row u b tu du); auto.
      rewrite <- Hsnd. now apply in_map. }
  cbn [bind]. rewrite madd_map_same.
  2:{ intros io _. unfold vsum. rewrite zipWith_length.
      rewrite (affine_length _ _ _ _ HA), (affine_length _ _ _ _ HK),
        (affine_length _ _ _ _ HB). lia. }
  cbn [bind]. unfold NonlinearOptim1CellZ.forward.
  rewrite linear_forward_map.
  2:{ intros io _. rewrite Optim1_states_length.
      symmetry; eapply constructed_in_features; eassumption. }
  cbn [bind]. rewrite map_map. rewrite linear_forward_map.
  2:{ intros io _. rewrite length_map, (affine_length _ _ _ _ Hl1).
      symmetry; eapply constructed_in_features; eassumption. }
  cbn [bind]. rewrite map_map. reflexivity.
Qed.

Lemma loop_steps (n : nat) :
  forall (k : nat) (Bs Zs : list (mat F)),
    k + n <= ty -> k + n <= tu ->
    for_each (Optim1.body p y u) (seq k n) (X k, Bs, Zs)
    = Ok (X (k + n), Bs ++ map X (seq k n), Zs ++ map Z (seq k n)).
Proof.
  induction n as [|n IH]; intros k Bs Zs Hy' Hu'; cbn [seq for_each map].
  - now rewrite Nat.add_0_r, !app_nil_r.
  - rewrite body_step by lia. cbn [bind].
    rewrite IH by lia. rewrite <- !app_assoc. cbn [app].
    now rewrite Nat.add_succ_r.
Qed.

(** The loop of [Optim1.forward], run for [n] steps from the zero state. *)
Lemma loop_from_zero (n : nat) :
  n <= ty -> n <= tu ->
  for_range n (Optim1.body p y u) (zeros b (Optim1.xBehav_size p), [], [])
  = Ok (X n, map X (seq 0 n), map Z (seq 0 n)).
Proof.
  intros Hn Hn'. unfold for_range. rewrite <- X_0.
  now rewrite (loop_steps n 0 [] []).
Qed.

Lemma stack_X (n : nat) :
  1 <= n ->
  stack_dim1 (map X (seq 0 n))
  = Ok (map (fun io => map (Optim1_states p (fst io) (snd io)) (seq 0 n)) inputs).
Proof.
  intros Hn. unfold X.
  apply (stack_dim1_maps (fun j io => Optim1_states p (fst io) (snd io) j)) with (w := xb).
  - destruct n; simpl; [lia | discriminate].
  - intros j io _ _. apply Optim1_states_length.
Qed.

Lemma stack_Z (n : nat) :
  1 <= n ->
  stack_dim1 (map Z (seq 0 n))
  = Ok (map (fun io => map (fun j => Optim1_decoder p (Optim1_states p (fst io) (snd io) j))
                         (seq 0 n)) inputs).
Proof.
  intros Hn. unfold Z.
  destruct Optim1_constructed_parts as (_ & _ & _ & _ & _ & Hl2).
  apply (stack_dim1_maps
           (fun j io => Optim1_decoder p (Optim1_states p (fst io) (snd io) j)))
    with (w := dz).
  - destruct n; simpl; [lia | discriminate].
  - intros j io _ _. unfold Optim1_decoder. now apply decoder_length with (i := xb).
Qed.

(** The whole forward pass on well-shaped inputs.  [u] may be longer than
    [y]: only its first [ty] steps are read. *)
Lemma Optim1_forward_closed_form :
  1 <= b -> 1 <= ty -> ty <= tu ->
  Optim1.forward p y u
  = Ok (map (fun io => map (fun j => Optim1_decoder p (Optim1_states p (fst io) (snd io) j))
                         (seq 0 ty)) (combine y u),
        map (fun io => map (Optim1_states p (fst io) (snd io)) (seq 0 ty)) (combine y u)).
Proof.
  intros Hb Hty Htu. unfold Optim1.forward.
  rewrite (has_shape3_size1 y b ty dy Hy Hb).
  replace (size0 y) with b by (apply has_shape3_spec in Hy as [Hl _]; now rewrite <- Hl).
  rewrite loop_from_zero by lia. cbn [bind].
  rewrite stack_X by lia. cbn [bind].
  rewrite stack_Z by lia. reflexivity.
Qed.
End Stage1Run.

(** ** Reading the stacked outputs by index *)

Section Indexing.
Context {X Y E : Type}.

Lemma nth_map_combine (g : list X * list Y -> list E) (xs : list (list X))
  (ys : list (list Y)) (b : nat) :
  length xs = length ys -> b < length xs ->
  nth b (map g (combine xs ys)) [] = g (nth b xs [], nth b ys []).
Proof.
  intros Hl Hb.
  rewrite (nth_map_lt g (combine xs ys) b ([], []) [])
    by (rewrite length_combine; lia).
  now rewrite combine_nth.
Qed.

Lemma nth_map_seq (f : nat -> list E) (n t : nat) :
  t < n -> nth t (map f (seq 0 n)) [] = f t.
Proof.
  intros Ht. rewrite (nth_map_lt f (seq 0 n) t 0 []) by now rewrite length_seq.
  now rewrite seq_nth.
Qed.
End Indexing.

(** The inputs of a step depend on the first rows only. *)
Lemma states_firstn {F : Type} `{Scalar F} (A K B : Linear.t F) (x_size k : nat)
  (yb ub : list (vec F)) (t : nat) :
  t <= k ->
  states A K B x_size (firstn k yb) (firstn k ub) t = states A K B x_size yb ub t.
Proof.
  induction t as [|t IH]; intros Ht; simpl; [reflexivity|].
  rewrite IH by lia.
  now rewrite !nth_firstn, (proj2 (Nat.ltb_lt t k)) by lia.
Qed.

Lemma in_firstn {X : Type} (k : nat) (l : list X) (x : X) :
  In x (firstn k l) -> In x l.
Proof.
  revert l; induction k as [|k IH]; intros [|a l]; simpl; try tauto.
  intros [Ha | Hx]; [now left | right; now apply IH].
Qed.

Lemma firstn_seq_le (k n s : nat) : k <= n -> firstn k (seq s n) = seq s k.
Proof.
  revert n s; induction k as [|k IH]; intros [|n] s Hk; simpl; try reflexivity; try lia.
  now rewrite IH by lia.
Qed.

Lemma has_shape3_firstn {F : Type} `{Scalar F} (x : tensor3 F) (b t d k : nat) :
  has_shape3 x b t d = true -> k <= t ->
  has_shape3 (map (firstn k) x) b k d = true.
Proof.
  intros Hx Hk. apply has_shape3_spec in Hx as [Hl Hm]. apply has_shape3_spec.
  rewrite length_map. split; [exact Hl|].
  intros m Hin. apply in_map_iff in Hin as [m' [<- Hin']].
  destruct (Hm m' Hin') as [Hlen Hv]. split.
  - rewrite length_firstn. lia.
  - intros v Hv'. apply Hv. eapply in_firstn; eassumption.
Qed.

Lemma combine_map_both {X Y : Type} (f : X -> Y) (xs ys : list X) :
  combine (map f xs) (map f ys) = map (fun io => (f (fst io), f (snd io))) (combine xs ys).
Proof.
  revert ys; induction xs as [|x xs IH]; intros [|y' ys]; simpl; try reflexivity.
  now rewrite IH.
Qed.

(** * Claims on Stage 1 *)

Section Stage1Claims.
Context {F : Type} `{Scalar F}.
Variables (p : Optim1.t F) (xb dy du yh dz : nat).
Hypothesis Hp : Optim1.constructed p xb dy du yh dz = true.

(** The outputs of a successful call, one batch element at a time. *)
Lemma Optim1_forward_rows (y u : tensor3 F) (B T Tu : nat) :
  has_shape3 y B T dy = true -> has_shape3 u B Tu du = true ->
  1 <= B -> 1 <= T -> T <= Tu ->
  exists z_hats1 behavStates,
    Optim1.forward p y u = Ok (z_hats1, behavStates)
    /\ length z_hats1 = B /\ length behavStates = B
    /\ forall b, b < B ->
         nth b behavStates []
         = map (Optim1_states p (nth b y []) (nth b u [])) (seq 0 T)
         /\ nth b z_hats1 []
            = map (fun t => Optim1_decoder p (Optim1_states p (nth b y []) (nth b u []) t))
                (seq 0 T).
Proof.
  intros Hy Hu HB HT HTu.
  pose proof (Optim1_forward_closed_form p xb dy du yh dz Hp y u B T Tu Hy Hu HB HT HTu)
    as Hfw.
  apply has_shape3_spec in Hy as [Hly _]. apply has_shape3_spec in Hu as [Hlu _].
  eexists _, _. split; [exact Hfw|].
  rewrite !length_map, length_combine.
  split; [lia|]. split; [lia|].
  intros b Hb. split.
  - now rewrite (nth_map_combine
                   (fun io => map (Optim1_states p (fst io) (snd io)) (seq 0 T))) by lia.
  - now rewrite (nth_map_combine
                   (fun io => map (fun t => Optim1_decoder p
                                              (Optim1_states p (fst io) (snd io) t))
                                (seq 0 T))) by lia.
Qed.
End Stage1Claims.

(** C1.  On inputs [y] of shape (B, T, Dy) and [u] of shape (B, T, Du) with
    [T >= 1], [Optim1.forward] returns, and for every batch element the
    returned latent sequence has exactly [T] states, starts at the zero
    vector, and satisfies [x[t+1] = A x[t] + K y[t] + B u[t]] (each map with
    its bias) for [t = 0 .. T-2].  The update computed in the last iteration,
    [x[T]], is not in the output. *)
Theorem Optim1_forward_recurrence {F : Type} `{Scalar F} (p : Optim1.t F)
  (xb dy du yh dz : nat) (y u : tensor3 F) (B T : nat) :
  Optim1.constructed p xb dy du yh dz = true ->
  has_shape3 y B T dy = true -> has_shape3 u B T du = true ->
  1 <= B -> 1 <= T ->
  exists z_hats1 behavStates,
    Optim1.forward p y u = Ok (z_hats1, behavStates)
    /\ length behavStates = B
    /\ forall b, b < B ->
         length (nth b behavStates []) = T
         /\ nth 0 (nth b behavStates []) [] = repeat fzero xb
         /\ forall t, S t < T ->
              nth (S t) (nth b behavStates []) []
              = x_update (Optim1Cell.W_A (Optim1.rnn_cell p))
                  (Optim1Cell.W_K (Optim1.rnn_cell p))
                  (Optim1Cell.W_B (Optim1.rnn_cell p))
                  (nth t (nth b behavStates []) [])
                  (nth t (nth b y []) []) (nth t (nth b u []) []).
Proof.
  intros Hp Hy Hu HB HT.
  destruct (Optim1_forward_rows p xb dy du yh dz Hp y u B T T Hy Hu HB HT (le_n T))
    as (zs & bs & Hfw & _ & Hlen & Hrows).
  destruct (Optim1_constructed_parts p xb dy du yh dz Hp) as (Hx & _).
  exists zs, bs. split; [exact Hfw|]. split; [exact Hlen|].
  intros b Hb. destruct (Hrows b Hb) as [Hrow _]. rewrite Hrow.
  split; [now rewrite length_map, length_seq|]. split.
  - rewrite nth_map_seq by lia. unfold Optim1_states. simpl. now rewrite Hx.
  - intros t Ht. rewrite !nth_map_seq by lia. reflexivity.
Qed.

Lemma Optim1_forward_recurrence_witness :
  exists z_hats1 behavStates,
    Optim1.forward p_ex y_ex u_ex = Ok (z_hats1, behavStates)
    /\ length behavStates = 2
    /\ forall b, b < 2 ->
         length (nth b behavStates []) = 3
         /\ nth 0 (nth b behavStates []) [] = repeat fzero 2
         /\ forall t, S t < 3 ->
              nth (S t) (nth b behavStates []) []
              = x_update (Optim1Cell.W_A (Optim1.rnn_cell p_ex))
                  (Optim1Cell.W_K (Optim1.rnn_cell p_ex))
                  (Optim1Cell.W_B (Optim1.rnn_cell p_ex))
                  (nth t (nth b behavStates []) [])
                  (nth t (nth b y_ex []) []) (nth t (nth b u_ex []) []).
Proof.
  apply (Optim1_forward_recurrence p_ex 2 1 1 1 1 y_ex u_ex 2 3);
    try reflexivity; lia.
Defined.

(** C3.  At every time index [t] the Stage-1 prediction is the decoder
    sigmoid(lin2(relu(lin1(.)))) applied to the latent state stored at the
    same index [t] of [behavStates]; one decoder serves every step. *)
Theorem Optim1_forward_readout {F : Type} `{Scalar F} (p : Optim1.t F)
  (xb dy du yh dz : nat) (y u : tensor3 F) (B T : nat) :
  Optim1.constructed p xb dy du yh dz = true ->
  has_shape3 y B T dy = true -> has_shape3 u B T du = true ->
  1 <= B -> 1 <= T ->
  exists z_hats1 behavStates,
    Optim1.forward p y u = Ok (z_hats1, behavStates)
    /\ length z_hats1 = B
    /\ forall b, b < B ->
         length (nth b z_hats1 []) = T
         /\ forall t, t < T ->
              nth t (nth b z_hats1 []) []
              = map sigmoid
                  (Linear.affine (NonlinearOptim1CellZ.Cz1_lin2 (Optim1.nonlinear_cellZ p))
                     (map relu
                        (Linear.affine
                           (NonlinearOptim1CellZ.Cz1_lin (Optim1.nonlinear_cellZ p))
                           (nth t (nth b behavStates []) [])))).
Proof.
  intros Hp Hy Hu HB HT.
  destruct (Optim1_forward_rows p xb dy du yh dz Hp y u B T T Hy Hu HB HT (le_n T))
    as (zs & bs & Hfw & Hlen & _ & Hrows).
  exists zs, bs. split; [exact Hfw|]. split; [exact Hlen|].
  intros b Hb. destruct (Hrows b Hb) as [Hrow Hzrow]. rewrite Hrow, Hzrow.
  split; [now rewrite length_map, length_seq|].
  intros t Ht.
  rewrite (nth_map_seq (Optim1_states p (nth b y []) (nth b u [])) T t Ht).
  now rewrite (nth_map_seq
                 (fun t => Optim1_decoder p (Optim1_states p (nth b y []) (nth b u []) t))
                 T t Ht).
Qed.

Lemma Optim1_forward_readout_witness :
  exists z_hats1 behavStates,
    Optim1.forward p_ex y_ex u_ex = Ok (z_hats1, behavStates)
    /\ length z_hats1 = 2
    /\ forall b, b < 2 ->
         length (nth b z_hats1 []) = 3
         /\ forall t, t < 3 ->
              nth t (nth b z_hats1 []) []
              = map sigmoid
                  (Linear.affine
                     (NonlinearOptim1CellZ.Cz1_lin2 (Optim1.nonlinear_cellZ p_ex))
                     (map relu
                        (Linear.affine
                           (NonlinearOptim1CellZ.Cz1_lin (Optim1.nonlinear_cellZ p_ex))
                           (nth t (nth b behavStates []) [])))).
Proof.
  apply (Optim1_forward_readout p_ex 2 1 1 1 1 y_ex u_ex 2 3);
    try reflexivity; lia.
Defined.

(** C4.  Whatever the parameters and the inputs, the latent sequence returned
    by [Optim1.forward] has the zero vector of size Dxb at time index 0, for
    every batch element: the initial state is a constant, not a parameter. *)
Theorem Optim1_forward_initial_state {F : Type} `{Scalar F} (p : Optim1.t F)
  (xb dy du yh dz : nat) (y u : tensor3 F) (B T : nat) :
  Optim1.constructed p xb dy du yh dz = true ->
  has_shape3 y B T dy = true -> has_shape3 u B T du = true ->
  1 <= B -> 1 <= T ->
  exists z_hats1 behavStates,
    Optim1.forward p y u = Ok (z_hats1, behavStates)
    /\ length behavStates = B
    /\ forall b, b < B -> nth 0 (nth b behavStates []) [] = repeat fzero xb.
Proof.
  intros Hp Hy Hu HB HT.
  destruct (Optim1_forward_rows p xb dy du yh dz Hp y u B T T Hy Hu HB HT (le_n T))
    as (zs & bs & Hfw & _ & Hlen & Hrows).
  destruct (Optim1_constructed_parts p xb dy du yh dz Hp) as (Hx & _).
  exists zs, bs. split; [exact Hfw|]. split; [exact Hlen|].
  intros b Hb. destruct (Hrows b Hb) as [Hrow _].
  rewrite Hrow, nth_map_seq by lia. unfold Optim1_states. simpl. now rewrite Hx.
Qed.

Lemma Optim1_forward_initial_state_witness :
  exists z_hats1 behavStates,
    Optim1.forward p_ex y_ex u_ex = Ok (z_hats1, behavStates)
    /\ length behavStates = 2
    /\ forall b, b < 2 -> nth 0 (nth b behavStates []) [] = repeat fzero 2.
Proof.
  apply (Optim1_forward_initial_state p_ex 2 1 1 1 1 y_ex u_ex 2 3);
    try reflexivity; lia.
Defined.

(** Running on the first [k] steps of the inputs gives the first [k] steps of
    both outputs. *)
Lemma Optim1_forward_prefix {F : Type} `{Scalar F} (p : Optim1.t F)
  (xb dy du yh dz : nat) (y u : tensor3 F) (B T k : nat) :
  Optim1.constructed p xb dy du yh dz = true ->
  has_shape3 y B T dy = true -> has_shape3 u B T du = true ->
  1 <= B -> 1 <= k -> k <= T ->
  exists z_hats1 behavStates z_hats1' behavStates',
    Optim1.forward p y u = Ok (z_hats1, behavStates)
    /\ Optim1.forward p (map (firstn k) y) (map (firstn k) u) = Ok (z_hats1', behavStates')
    /\ map (firstn k) z_hats1 = z_hats1'
    /\ map (firstn k) behavStates = behavStates'.
Proof.
  intros Hp Hy Hu HB Hk HkT.
  pose proof (Optim1_forward_closed_form p xb dy du yh dz Hp y u B T T Hy Hu HB
                ltac:(lia) (le_n T)) as Hfull.
  pose proof (Optim1_forward_closed_form p xb dy du yh dz Hp _ _ B k k
                (has_shape3_firstn y B T dy k Hy HkT)
                (has_shape3_firstn u B T du k Hu HkT) HB Hk (le_n k)) as Hpre.
  eexists _, _, _, _. split; [exact Hfull|]. split; [exact Hpre|].
  rewrite combine_map_both, !map_map. cbn [fst snd].
  split; apply map_ext; intros io; rewrite firstn_map, firstn_seq_le by lia;
    apply map_ext_in; intros t Ht; apply in_seq in Ht;
    unfold Optim1_states; now rewrite states_firstn by lia.
Qed.

(** C8.  With the same parameters, a run on inputs of length 8 and a run on
    their length-5 prefixes both succeed, and the first 5 time steps of
    [z_hats1] and of [behavStates] of the long run are the outputs of the
    short run.  [Optim1.forward] is a function of the parameters and the two
    inputs: nothing is carried from one call to the next. *)
Theorem Optim1_forward_prefix_5_of_8 {F : Type} `{Scalar F} (p : Optim1.t F)
  (xb dy du yh dz : nat) (y u : tensor3 F) (B : nat) :
  Optim1.constructed p xb dy du yh dz = true ->
  has_shape3 y B 8 dy = true -> has_shape3 u B 8 du = true ->
  1 <= B ->
  exists z_hats1 behavStates z_hats1' behavStates',
    Optim1.forward p y u = Ok (z_hats1, behavStates)
    /\ Optim1.forward p (map (firstn 5) y) (map (firstn 5) u) = Ok (z_hats1', behavStates')
    /\ map (firstn 5) z_hats1 = z_hats1'
    /\ map (firstn 5) behavStates = behavStates'.
Proof.
  intros Hp Hy Hu HB.
  apply (Optim1_forward_prefix p xb dy du yh dz y u B 8 5 Hp Hy Hu HB); lia.
Qed.

Lemma Optim1_forward_prefix_5_of_8_witness :
  exists z_hats1 behavStates z_hats1' behavStates',
    Optim1.forward p_ex y8_ex u8_ex = Ok (z_hats1, behavStates)
    /\ Optim1.forward p_ex (map (firstn 5) y8_ex) (map (firstn 5) u8_ex)
       = Ok (z_hats1', behavStates')
    /\ map (firstn 5) z_hats1 = z_hats1'
    /\ map (firstn 5) behavStates = behavStates'.
Proof.
  apply (Optim1_forward_prefix_5_of_8 p_ex 2 1 1 1 1 y8_ex u8_ex 1);
    try reflexivity; lia.
Defined.

(** C10.  For two input pairs of the same shapes, the outputs at time index 0
    coincide: in both runs [behavStates[:,0,:]] is the zero vector and
    [z_hats1[:,0,:]] is the decoder applied to the zero vector, the same
    vector for every batch element. *)
Theorem Optim1_forward_time0_constant {F : Type} `{Scalar F} (p : Optim1.t F)
  (xb dy du yh dz : nat) (y u y' u' : tensor3 F) (B T : nat) :
  Optim1.constructed p xb dy du yh dz = true ->
  has_shape3 y B T dy = true -> has_shape3 u B T du = true ->
  has_shape3 y' B T dy = true -> has_shape3 u' B T du = true ->
  1 <= B -> 1 <= T ->
  exists z_hats1 behavStates z_hats1' behavStates',
    Optim1.forward p y u = Ok (z_hats1, behavStates)
    /\ Optim1.forward p y' u' = Ok (z_hats1', behavStates')
    /\ forall b, b < B ->
         nth 0 (nth b behavStates []) [] = repeat fzero xb
         /\ nth 0 (nth b behavStates' []) [] = repeat fzero xb
         /\ nth 0 (nth b z_hats1 []) [] = Optim1_decoder p (repeat fzero xb)
         /\ nth 0 (nth b z_hats1' []) [] = Optim1_decoder p (repeat fzero xb).
Proof.
  intros Hp Hy Hu Hy' Hu' HB HT.
  destruct (Optim1_forward_rows p xb dy du yh dz Hp y u B T T Hy Hu HB HT (le_n T))
    as (zs & bs & Hfw & _ & _ & Hrows).
  destruct (Optim1_forward_rows p xb dy du yh dz Hp y' u' B T T Hy' Hu' HB HT (le_n T))
    as (zs' & bs' & Hfw' & _ & _ & Hrows').
  destruct (Optim1_constructed_parts p xb dy du yh dz Hp) as (Hx & _).
  exists zs, bs, zs', bs'. split; [exact Hfw|]. split; [exact Hfw'|].
  intros b Hb.
  destruct (Hrows b Hb) as [Hr Hz]. destruct (Hrows' b Hb) as [Hr' Hz'].
  rewrite Hr, Hr', Hz, Hz'.
  rewrite (nth_map_seq (Optim1_states p (nth b y []) (nth b u [])) T 0 HT).
  rewrite (nth_map_seq (Optim1_states p (nth b y' []) (nth b u' [])) T 0 HT).
  rewrite (nth_map_seq
             (fun t => Optim1_decoder p (Optim1_states p (nth b y []) (nth b u []) t))
             T 0 HT).
  rewrite (nth_map_seq
             (fun t => Optim1_decoder p (Optim1_states p (nth b y' []) (nth b u' []) t))
             T 0 HT).
  unfold Optim1_states. simpl. rewrite Hx. auto.
Qed.

Lemma Optim1_forward_time0_constant_witness :
  exists z_hats1 behavStates z_hats1' behavStates',
    Optim1.forward p_ex y_ex u_ex = Ok (z_hats1, behavStates)
    /\ Optim1.forward p_ex y_ex' u_ex' = Ok (z_hats1', behavStates')
    /\ forall b, b < 2 ->
         nth 0 (nth b behavStates []) [] = repeat fzero 2
         /\ nth 0 (nth b behavStates' []) [] = repeat fzero 2
         /\ nth 0 (nth b z_hats1 []) [] = Optim1_decoder p_ex (repeat fzero 2)
         /\ nth 0 (nth b z_hats1' []) [] = Optim1_decoder p_ex (repeat fzero 2).
Proof.
  apply (Optim1_forward_time0_constant p_ex 2 1 1 1 1 y_ex u_ex y_ex' u_ex' 2 3);
    try reflexivity; lia.
Defined.

(** ** Zero maps and zero-width inputs *)

Section ZeroMaps.
Context {F : Type} `{Scalar F} (finite : F -> bool) `{!FiniteZeroLaws F finite}.



End ZeroMaps.


(** A layer of input width 0 returns zero plus its bias. *)
Lemma affine_no_input {F : Type} `{Scalar F} (L : Linear.t F) (o : nat) (x : vec F) :
  Linear.constructed L 0 o = true ->
  Linear.affine L x = map (fadd fzero) (Linear.bias L).
Proof.
  unfold Linear.constructed, Linear.affine.
  rewrite !andb_true_iff, !Nat.eqb_eq, forallb_forall.
  intros [[[[_ _] Hw] Hrows] Hb].
  assert (Hlen : length (Linear.weight L) = length (Linear.bias L)) by lia.
  clear Hw Hb. revert Hrows Hlen.
  generalize (Linear.weight L) as ws, (Linear.bias L) as bs.
  induction ws as [|w ws IH]; intros [|c bs] Hrows Hlen; simpl in *;
    try discriminate; [reflexivity|].
  assert (Hw : w = []).
  { specialize (Hrows w (or_introl eq_refl)). apply Nat.eqb_eq in Hrows.
    now destruct w. }
  subst w. unfold dot at 1. rewrite combine_nil. cbn [fold_left].
  rewrite IH; auto.
Qed.




(** C7, as the code has it.  With an input width of zero the map [W_B]
    still exists with the configured shape, a weight of shape (Dxb, 0) and a
    bias of shape (Dxb), and is applied at every step.  Its weight has no
    column, so its product with [u[t]] is the zero vector and the input-gain
    term is zero plus the bias of [W_B], the same vector at every step:
    [x[t+1] = (A x[t] + K y[t]) + (0 + bias_B)].  When that bias is zero the
    term is the zero vector. *)
Theorem Optim1_forward_no_input_width {F : Type} `{Scalar F} (p : Optim1.t F)
  (xb dy yh dz : nat) (y u : tensor3 F) (B T : nat) :
  Optim1.constructed p xb dy 0 yh dz = true ->
  has_shape3 y B T dy = true -> has_shape3 u B T 0 = true ->
  1 <= B -> 1 <= T ->
  (length (Linear.weight (Optim1Cell.W_B (Optim1.rnn_cell p))) = xb
   /\ (forall w, In w (Linear.weight (Optim1Cell.W_B (Optim1.rnn_cell p))) -> w = [])
   /\ length (Linear.bias (Optim1Cell.W_B (Optim1.rnn_cell p))) = xb)
  /\ exists z_hats1 behavStates,
    Optim1.forward p y u = Ok (z_hats1, behavStates)
    /\ length behavStates = B
    /\ forall b, b < B ->
         length (nth b behavStates []) = T
         /\ nth 0 (nth b behavStates []) [] = repeat fzero xb
         /\ forall t, S t < T ->
              Linear.affine (Optim1Cell.W_B (Optim1.rnn_cell p)) (nth t (nth b u []) [])
              = map (fadd fzero) (Linear.bias (Optim1Cell.W_B (Optim1.rnn_cell p)))
              /\ nth (S t) (nth b behavStates []) []
                 = vsum (x_update_no_input (Optim1Cell.W_A (Optim1.rnn_cell p))
                           (Optim1Cell.W_K (Optim1.rnn_cell p))
                           (nth t (nth b behavStates []) []) (nth t (nth b y []) []))
                     (map (fadd fzero)
                        (Linear.bias (Optim1Cell.W_B (Optim1.rnn_cell p))))
              /\ (Linear.bias (Optim1Cell.W_B (Optim1.rnn_cell p)) = repeat fzero xb ->
                  fadd fzero fzero = fzero ->
                  Linear.affine (Optim1Cell.W_B (Optim1.rnn_cell p))
                    (nth t (nth b u []) [])
                  = repeat fzero xb).
Proof.
  intros Hp Hy Hu HB HT.
  destruct (Optim1_forward_rows p xb dy 0 yh dz Hp y u B T T Hy Hu HB HT (le_n T))
    as (zs & bs & Hfw & _ & Hlen & Hrows).
  destruct (Optim1_constructed_parts p xb dy 0 yh dz Hp) as (Hx & HcA & HcK & HcB & _).
  split.
  { revert HcB. unfold Linear.constructed.
    rewrite !andb_true_iff, !Nat.eqb_eq, forallb_forall.
    intros [[[[_ _] Hw] Hws] Hbl]. repeat split; auto.
    intros w Hin. specialize (Hws w Hin). apply Nat.eqb_eq in Hws. now destruct w. }
  exists zs, bs. split; [exact Hfw|]. split; [exact Hlen|].
  intros b Hb. destruct (Hrows b Hb) as [Hrow _]. rewrite Hrow.
  split; [now rewrite length_map, length_seq|]. split.
  - rewrite nth_map_seq by lia. unfold Optim1_states. simpl. now rewrite Hx.
  - intros t Ht. rewrite !nth_map_seq by lia.
    pose proof (affine_no_input _ xb (nth t (nth b u []) []) HcB) as Hterm.
    split; [exact Hterm|]. split.
    + unfold Optim1_states. cbn [states]. unfold x_update, x_update_no_input.
      now rewrite Hterm.
    + intros Hbias H00. rewrite Hterm, Hbias.
      clear - H00. induction xb as [|n IH]; simpl; [reflexivity|]. now rewrite H00, IH.
Qed.

Lemma Optim1_forward_no_input_width_witness :
  (length (Linear.weight (Optim1Cell.W_B (Optim1.rnn_cell p_nou_ex))) = 1
   /\ (forall w, In w (Linear.weight (Optim1Cell.W_B (Optim1.rnn_cell p_nou_ex))) -> w = [])
   /\ length (Linear.bias (Optim1Cell.W_B (Optim1.rnn_cell p_nou_ex))) = 1)
  /\ exists z_hats1 behavStates,
    Optim1.forward p_nou_ex y_nou_ex u_nou_ex = Ok (z_hats1, behavStates)
    /\ length behavStates = 1
    /\ forall b, b < 1 ->
         length (nth b behavStates []) = 2
         /\ nth 0 (nth b behavStates []) [] = repeat fzero 1
         /\ forall t, S t < 2 ->
              Linear.affine (Optim1Cell.W_B (Optim1.rnn_cell p_nou_ex))
                (nth t (nth b u_nou_ex []) [])
              = map (fadd fzero) (Linear.bias (Optim1Cell.W_B (Optim1.rnn_cell p_nou_ex)))
              /\ nth (S t) (nth b behavStates []) []
                 = vsum (x_update_no_input (Optim1Cell.W_A (Optim1.rnn_cell p_nou_ex))
                           (Optim1Cell.W_K (Optim1.rnn_cell p_nou_ex))
                           (nth t (nth b behavStates []) []) (nth t (nth b y_nou_ex []) []))
                     (map (fadd fzero)
                        (Linear.bias (Optim1Cell.W_B (Optim1.rnn_cell p_nou_ex))))
              /\ (Linear.bias (Optim1Cell.W_B (Optim1.rnn_cell p_nou_ex))
                  = repeat fzero 1 ->
                  fadd fzero fzero = (fzero : Z) ->
                  Linear.affine (Optim1Cell.W_B (Optim1.rnn_cell p_nou_ex))
                    (nth t (nth b u_nou_ex []) [])
                  = repeat fzero 1).
Proof.
  apply (Optim1_forward_no_input_width p_nou_ex 1 1 1 1 y_nou_ex u_nou_ex 1 2);
    try reflexivity; lia.
Defined.

(** C7 as stated fails: with an input width of zero and a bias of 1 in
    [W_B], the state after the first step is 2, while the recurrence without
    the input-gain term gives 1. *)
Lemma Optim1_forward_no_input_width_counterexample :
  Optim1.constructed p_nou_ex 1 1 0 1 1 = true
  /\ has_shape3 y_nou_ex 1 2 1 = true /\ has_shape3 u_nou_ex 1 2 0 = true
  /\ exists z_hats1 behavStates,
       Optim1.forward p_nou_ex y_nou_ex u_nou_ex = Ok (z_hats1, behavStates)
       /\ nth 1 (nth 0 behavStates []) [] = [2%Z]
       /\ x_update_no_input (Optim1Cell.W_A (Optim1.rnn_cell p_nou_ex))
            (Optim1Cell.W_K (Optim1.rnn_cell p_nou_ex))
            (nth 0 (nth 0 behavStates []) []) (nth 0 (nth 0 y_nou_ex []) []) = [1%Z]
       /\ nth 1 (nth 0 behavStates []) []
          <> x_update_no_input (Optim1Cell.W_A (Optim1.rnn_cell p_nou_ex))
               (Optim1Cell.W_K (Optim1.rnn_cell p_nou_ex))
               (nth 0 (nth 0 behavStates []) []) (nth 0 (nth 0 y_nou_ex []) []).
Proof.
  repeat split; try reflexivity.
  eexists _, _. split; [vm_compute; reflexivity|].
  repeat split; try reflexivity. vm_compute. discriminate.
Qed.

(** * Claims on Stage 2 *)

Section Stage2Run.
Context {F : Type} `{Scalar F}.

Lemma stack_dim1_error (ts : list (mat F)) (e : error) :
  stack_dim1 ts = Err e -> e = RuntimeError.
Proof.
  unfold stack_dim1. destruct ts as [|m0 rest]; [congruence|].
  destruct (forallb (same_shape2 m0) rest); congruence.
Qed.

Lemma Optim3_body_as_Optim1 (p : Optim3.t F) (d u : tensor3 F) (t : nat)
  (st : Optim3.loop_state) :
  Optim3.body p d u t st = Optim1.body (Optim3_as_Optim1 p) d u t st.
Proof. destruct st as [[x xs] ys]. reflexivity. Qed.

Lemma zipWith_app_size1 (y behav : tensor3 F) :
  size1 y = size1 behav -> length y = length behav ->
  size1 (zipWith (zipWith (@app F)) y behav) = size1 y.
Proof.
  destruct y as [|m y], behav as [|m' behav]; simpl; intros Hs Hl;
    try reflexivity; try discriminate.
  rewrite zipWith_length. lia.
Qed.

(** [Optim3.forward] is [Optim1.forward] on the concatenated stream. *)
Lemma Optim3_forward_as_Optim1 (p : Optim3.t F) (behavStates y u : tensor3 F) :
  Optim3.forward p behavStates y u
  = (yAndxBehav <- cat_dim2 y behavStates ;;
     Optim1.forward (Optim3_as_Optim1 p) yAndxBehav u).
Proof.
  unfold Optim3.forward, Optim1.forward, cat_dim2.
  destruct ((size0 y =? size0 behavStates) && (size1 y =? size1 behavStates)) eqn:E;
    [|reflexivity].
  apply andb_true_iff in E as [E0 E1]. apply Nat.eqb_eq in E0, E1.
  unfold size0 in *. cbn [bind].
  rewrite (zipWith_app_size1 y behavStates E1 E0), zipWith_length, <- E0, Nat.min_id.
  unfold for_range.
  rewrite (for_each_ext _ _ _ _ (Optim3_body_as_Optim1 p _ u)).
  cbn [Optim3_as_Optim1 Optim1.xBehav_size].
  destruct (for_each _ _ _) as [[[x xs] ys]|e]; cbn [bind]; [|reflexivity].
  destruct (stack_dim1 xs) as [sx|ex] eqn:Ex, (stack_dim1 ys) as [sy|ey] eqn:Ey;
    cbn [bind]; try reflexivity.
  now rewrite (stack_dim1_error _ _ Ex), (stack_dim1_error _ _ Ey).
Qed.

Lemma Optim3_constructed_as_Optim1 (p : Optim3.t F) (xb xn dy du yh dz : nat) :
  Optim3.constructed p xb xn dy du yh dz = true ->
  Optim1.constructed (Optim3_as_Optim1 p) xn (dy + xb) du dz yh = true.
Proof.
  unfold Optim3.constructed, Optim1.constructed, Optim3Cell.constructed,
    Optim1Cell.constructed, NonlinearOptim3CellY.constructed,
    NonlinearOptim1CellZ.constructed, Optim3_as_Optim1. simpl.
  rewrite !andb_true_iff. intros [[[Hn Hz] [[HA HK] HB]] [H1 H2]].
  repeat split; assumption.
Qed.

Lemma has_shape3_cat (y behav : tensor3 F) (b t d d' : nat) :
  has_shape3 y b t d = true -> has_shape3 behav b t d' = true ->
  has_shape3 (zipWith (zipWith (@app F)) y behav) b t (d + d') = true.
Proof.
  intros Hy Hb. apply has_shape3_spec in Hy as [Hl Hm].
  apply has_shape3_spec in Hb as [Hl' Hm']. apply has_shape3_spec.
  rewrite zipWith_length. split; [lia|].
  intros r Hr. apply zipWith_in in Hr as (m & m' & Hin & Hin' & ->).
  destruct (Hm m Hin) as [Hlm Hvm]. destruct (Hm' m' Hin') as [Hlm' Hvm'].
  rewrite zipWith_length. split; [lia|].
  intros w Hw. apply zipWith_in in Hw as (v & v' & Hv & Hv' & ->).
  rewrite length_app. rewrite (Hvm v Hv), (Hvm' v' Hv'). reflexivity.
Qed.
End Stage2Run.

(** C2.  On well-shaped [behavStates], [y] and [u], [Optim3.forward] returns,
    and for every batch element the returned residual sequence has exactly
    [T] states, starts at the zero vector, and satisfies
    [x[t+1] = A' x[t] + K' c[t] + B' u[t]] where [c[t]] is [y[t]] followed by
    [behavStates[t]].  The three maps are those of the Stage-2 cell; no
    Stage-1 parameter enters the computation. *)
Theorem Optim3_forward_recurrence {F : Type} `{Scalar F} (p : Optim3.t F)
  (xb xn dy du yh dz : nat) (behavStates y u : tensor3 F) (B T : nat) :
  Optim3.constructed p xb xn dy du yh dz = true ->
  has_shape3 behavStates B T xb = true ->
  has_shape3 y B T dy = true -> has_shape3 u B T du = true ->
  1 <= B -> 1 <= T ->
  exists y_hats2 xNeural_states,
    Optim3.forward p behavStates y u = Ok (y_hats2, xNeural_states)
    /\ length xNeural_states = B
    /\ forall b, b < B ->
         length (nth b xNeural_states []) = T
         /\ nth 0 (nth b xNeural_states []) [] = repeat fzero xn
         /\ forall t, S t < T ->
              nth (S t) (nth b xNeural_states []) []
              = x_update (Optim3Cell.W_A (Optim3.rnn_cell p))
                  (Optim3Cell.W_K (Optim3.rnn_cell p))
                  (Optim3Cell.W_B (Optim3.rnn_cell p))
                  (nth t (nth b xNeural_states []) [])
                  (nth t (nth b y []) [] ++ nth t (nth b behavStates []) [])
                  (nth t (nth b u []) []).
Proof.
  intros Hp Hbs Hy Hu HB HT.
  pose proof (Optim3_constructed_as_Optim1 p xb xn dy du yh dz Hp) as Hp1.
  pose proof (has_shape3_cat y behavStates B T dy xb Hy Hbs) as Hd.
  destruct (Optim1_forward_rows _ _ _ _ _ _ Hp1 _ u B T T Hd Hu HB HT (le_n T))
    as (zs & xs & Hfw & _ & Hlen & Hrows).
  destruct (Optim1_constructed_parts _ _ _ _ _ _ Hp1) as (Hx & _).
  exists zs, xs. split.
  { rewrite Optim3_forward_as_Optim1, (cat_dim2_ok y behavStates B T dy xb Hy Hbs HB).
    exact Hfw. }
  split; [exact Hlen|].
  intros b Hb. destruct (Hrows b Hb) as [Hrow _]. rewrite Hrow.
  split; [now rewrite length_map, length_seq|]. split.
  - rewrite nth_map_seq by lia. unfold Optim1_states. simpl in *. now rewrite Hx.
  - intros t Ht. rewrite !nth_map_seq by lia.
    unfold Optim1_states. cbn [states]. f_equal.
    apply has_shape3_spec in Hy as [Hly Hmy]. apply has_shape3_spec in Hbs as [Hlb Hmb].
    rewrite (zipWith_nth (zipWith (@app F)) y behavStates b [] [] []) by lia.
    destruct (Hmy (nth b y [])) as [Hty _]; [apply nth_In; lia|].
    destruct (Hmb (nth b behavStates [])) as [Htb _]; [apply nth_In; lia|].
    now rewrite (zipWith_nth (@app F) _ _ t [] [] []) by lia.
Qed.

Lemma Optim3_forward_recurrence_witness :
  exists y_hats2 xNeural_states,
    Optim3.forward p3_ex behav_ex y_ex u_ex = Ok (y_hats2, xNeural_states)
    /\ length xNeural_states = 2
    /\ forall b, b < 2 ->
         length (nth b xNeural_states []) = 3
         /\ nth 0 (nth b xNeural_states []) [] = repeat fzero 1
         /\ forall t, S t < 3 ->
              nth (S t) (nth b xNeural_states []) []
              = x_update (Optim3Cell.W_A (Optim3.rnn_cell p3_ex))
                  (Optim3Cell.W_K (Optim3.rnn_cell p3_ex))
                  (Optim3Cell.W_B (Optim3.rnn_cell p3_ex))
                  (nth t (nth b xNeural_states []) [])
                  (nth t (nth b y_ex []) [] ++ nth t (nth b behav_ex []) [])
                  (nth t (nth b u_ex []) []).
Proof.
  apply (Optim3_forward_recurrence p3_ex 2 1 1 1 1 1 behav_ex y_ex u_ex 2 3);
    try reflexivity; lia.
Defined.

Example Optim1_forward_ex :
  Optim1.forward p_ex y_ex u_ex
  = Ok ([[[5];[9];[19]]; [[5];[9];[13]]]%Z,
        [[[0;0];[4;3];[9;14]]; [[0;0];[3;-1];[8;4]]]%Z).
Proof. vm_compute. reflexivity. Qed.

Example Optim3_forward_ex :
  Optim3.forward p3_ex behav_ex y_ex u_ex
  = Ok ([[[0];[3];[349]]; [[0];[3];[0]]]%Z, [[[0];[3];[349]]; [[0];[3];[-60]]]%Z).
Proof. vm_compute. reflexivity. Qed.

(** * Shapes that the forward passes reject, and shapes that they accept *)

Lemma mapM_length {A B : Type} (f : A -> result B) (l : list A) (l' : list B) :
  mapM f l = Ok l' -> length l' = length l.
Proof.
  revert l'; induction l as [|a l IH]; intros l'; simpl.
  - intros [= <-]. reflexivity.
  - destruct (f a) as [b|e]; simpl; [|discriminate].
    destruct (mapM f l) as [bs|e]; simpl; [|discriminate].
    intros [= <-]. simpl. now rewrite (IH bs eq_refl).
Qed.

Lemma states_firstn_u {F : Type} `{Scalar F} (A K B : Linear.t F) (x_size k : nat)
  (yb ub : list (vec F)) (t : nat) :
  t <= k ->
  states A K B x_size yb (firstn k ub) t = states A K B x_size yb ub t.
Proof.
  induction t as [|t IH]; intros Ht; simpl; [reflexivity|].
  rewrite IH by lia.
  now rewrite nth_firstn, (proj2 (Nat.ltb_lt t k)) by lia.
Qed.

Lemma combine_map_r {X Y Y' : Type} (f : Y -> Y') (xs : list X) (ys : list Y) :
  combine xs (map f ys) = map (fun io => (fst io, f (snd io))) (combine xs ys).
Proof.
  revert ys; induction xs as [|x xs IH]; intros [|y' ys]; simpl; try reflexivity.
  now rewrite IH.
Qed.

Section Stage1Shapes.
Context {F : Type} `{Scalar F}.
Variables (p : Optim1.t F) (xb dy du yh dz : nat).
Hypothesis Hp : Optim1.constructed p xb dy du yh dz = true.
Variables (y u : tensor3 F) (B T wy Bu Tu wu : nat).
Hypothesis Hy : has_shape3 y B T wy = true.
Hypothesis Hu : has_shape3 u Bu Tu wu = true.
Hypothesis HB : 1 <= B.
Hypothesis HT : 1 <= T.

Lemma madd_length (a k ak : mat F) :
  length a = length k -> madd a k = Ok ak -> length ak = length a.
Proof.
  intros Hl. unfold madd, bcast. rewrite (proj2 (Nat.eqb_eq _ _) Hl).
  intros Hm. apply mapM_length in Hm. rewrite Hm, length_combine. lia.
Qed.

Lemma forward_first_step (e : error) :
  Optim1.body p y u 0 (zeros B (Optim1.xBehav_size p), [], []) = Err e ->
  Optim1.forward p y u = Err e.
Proof.
  intros Hstep. unfold Optim1.forward.
  rewrite (has_shape3_size1 y B T wy Hy HB).
  replace (size0 y) with B
    by (destruct (proj1 (has_shape3_spec y B T _) Hy) as [Hl _]; now rewrite <- Hl).
  unfold for_range. destruct T as [|T']; [lia|].
  cbn [seq for_each]. now rewrite Hstep.
Qed.

Lemma zeros_as_map : zeros B (Optim1.xBehav_size p) = map (fun _ => repeat fzero xb) y.
Proof.
  destruct (Optim1_constructed_parts p xb dy du yh dz Hp) as (Hx & _).
  destruct (proj1 (has_shape3_spec y B T wy) Hy) as [Hl _].
  unfold zeros. now rewrite map_const, Hl, Hx.
Qed.

Lemma y_nonempty : y <> [].
Proof.
  destruct (proj1 (has_shape3_spec y B T wy) Hy) as [Hl _].
  destruct y; simpl in *; [lia | discriminate].
Qed.

(** The width of [y] is not the configured one. *)
Lemma forward_y_width : wy <> dy -> is_err (Optim1.forward p y u) = true.
Proof.
  intros Hw.
  destruct (Optim1_constructed_parts p xb dy du yh dz Hp) as (Hx & HA & HK & _).
  assert (Hstep : exists e, Optim1.body p y u 0 (zeros B (Optim1.xBehav_size p), [], [])
                            = Err e).
  { unfold Optim1.body.
    rewrite (select_t_ok y B T wy 0 Hy HT). cbn [bind].
    destruct (select_t u 0) as [u_t|e]; cbn [bind]; [|now exists e].
    unfold Optim1Cell.forward. rewrite zeros_as_map.
    rewrite linear_forward_map
      by (intros; now rewrite repeat_length, (constructed_in_features _ _ _ HA)).
    cbn [bind]. rewrite linear_forward_width.
    - now exists RuntimeError.
    - apply y_nonempty.
    - intros m Hm. rewrite (constructed_in_features _ _ _ HK).
      now rewrite (has_shape3_row y B T wy m 0 Hy Hm HT). }
  destruct Hstep as [e He]. now rewrite (forward_first_step e He).
Qed.

(** The width of [u] is not the configured one. *)
Lemma forward_u_width :
  wy = dy -> 1 <= Bu -> 1 <= Tu -> wu <> du ->
  Optim1.forward p y u = Err RuntimeError.
Proof.
  intros Hwy HBu HTu Hw.
  assert (Hy' : has_shape3 y B T dy = true) by now rewrite <- Hwy.
  destruct (Optim1_constructed_parts p xb dy du yh dz Hp) as (Hx & HA & HK & HcB & _).
  apply forward_first_step. unfold Optim1.body.
  rewrite (select_t_ok y B T dy 0 Hy' HT), (select_t_ok u Bu Tu wu 0 Hu HTu).
  cbn [bind]. unfold Optim1Cell.forward. rewrite zeros_as_map.
  rewrite linear_forward_map
    by (intros; now rewrite repeat_length, (constructed_in_features _ _ _ HA)).
  cbn [bind]. rewrite linear_forward_map.
  2:{ intros m Hm. rewrite (constructed_in_features _ _ _ HK).
      now apply (has_shape3_row y B T dy m 0 Hy' Hm HT). }
  cbn [bind]. rewrite madd_map_same
    by (intros; now rewrite (affine_length _ _ _ _ HA), (affine_length _ _ _ _ HK)).
  cbn [bind]. rewrite linear_forward_width; [reflexivity | |].
  - destruct (proj1 (has_shape3_spec u Bu Tu wu) Hu) as [Hl _].
    destruct u; simpl in *; [lia | discriminate].
  - intros m Hm. rewrite (constructed_in_features _ _ _ HcB).
    now rewrite (has_shape3_row u Bu Tu wu m 0 Hu Hm HTu).
Qed.

(** [u] has fewer time steps than [y]. *)
Lemma forward_u_short :
  wy = dy -> wu = du -> Bu = B -> Tu < T ->
  Optim1.forward p y u = Err IndexError.
Proof.
  intros Hwy Hwu HBu HTu.
  assert (Hy' : has_shape3 y B T dy = true) by now rewrite <- Hwy.
  assert (Hu' : has_shape3 u B Tu du = true) by now rewrite <- Hwu, <- HBu.
  unfold Optim1.forward.
  rewrite (has_shape3_size1 y B T dy Hy' HB).
  replace (size0 y) with B
    by (destruct (proj1 (has_shape3_spec y B T _) Hy) as [Hl _]; now rewrite <- Hl).
  unfold for_range.
  replace T with (Tu + S (T - S Tu)) at 1 by lia.
  rewrite seq_app, for_each_app.
  pose proof (loop_from_zero p xb dy du yh dz Hp y u B T Tu Hy' Hu' Tu
                ltac:(lia) (le_n Tu)) as Hloop.
  unfold for_range in Hloop. rewrite Hloop. cbn [bind seq for_each].
  unfold Optim1.body at 1.
  rewrite (select_t_ok y B T dy (0 + Tu) Hy' ltac:(lia)).
  rewrite (select_t_past u B Tu du (0 + Tu) Hu' HB ltac:(lia)).
  reflexivity.
Qed.

(** [u] has fewer time steps than [y], whatever its other dimensions. *)
Lemma forward_u_short_any : 1 <= Bu -> Tu < T -> is_err (Optim1.forward p y u) = true.
Proof.
  intros HBu HTu. unfold Optim1.forward.
  rewrite (has_shape3_size1 y B T wy Hy HB). unfold for_range.
  assert (Hloop : is_err (for_each (Optim1.body p y u) (seq 0 T)
                            (zeros (size0 y) (Optim1.xBehav_size p), [], [])) = true).
  { apply for_each_fails_at with (t := Tu); [apply in_seq; lia|].
    intros [[x xs] zs]. unfold Optim1.body.
    rewrite (select_t_ok y B T wy Tu Hy HTu).
    now rewrite (select_t_past u Bu Tu wu Tu Hu HBu (le_n Tu)). }
  now destruct (for_each _ _ _).
Qed.

(** The width of [u] is not the configured one, whatever else holds. *)
Lemma forward_u_width_any : 1 <= Bu -> wu <> du -> is_err (Optim1.forward p y u) = true.
Proof.
  intros HBu Hw.
  destruct (Nat.eq_dec wy dy) as [Hwy | Hwy]; [|now apply forward_y_width].
  destruct (Nat.eq_dec Tu 0) as [HTu | HTu].
  - apply forward_u_short_any; lia.
  - rewrite forward_u_width; auto; lia.
Qed.

(** The batch sizes of [y] and [u] differ and neither is 1. *)
Lemma forward_batch_mismatch :
  B <> Bu -> 2 <= B -> 2 <= Bu -> is_err (Optim1.forward p y u) = true.
Proof.
  intros Hne HB2 HBu2.
  assert (Hstep : exists e, Optim1.body p y u 0 (zeros B (Optim1.xBehav_size p), [], [])
                            = Err e).
  { unfold Optim1.body.
    destruct (select_t y 0) as [y_t|e] eqn:Ey; cbn [bind]; [|now exists e].
    destruct (select_t u 0) as [u_t|e] eqn:Eu; cbn [bind]; [|now exists e].
    apply mapM_length in Ey, Eu.
    unfold Optim1Cell.forward.
    destruct (Linear.forward _ (zeros _ _)) as [a|e] eqn:Ea; cbn [bind]; [|now exists e].
    destruct (Linear.forward _ y_t) as [k|e] eqn:Ek; cbn [bind]; [|now exists e].
    apply mapM_length in Ea, Ek.
    unfold zeros in Ea. rewrite repeat_length in Ea.
    destruct (proj1 (has_shape3_spec y B T wy) Hy) as [Hly _].
    destruct (proj1 (has_shape3_spec u Bu Tu wu) Hu) as [Hlu _].
    destruct (madd a k) as [ak|e] eqn:Eak; cbn [bind]; [|now exists e].
    apply madd_length in Eak; [|lia].
    destruct (Linear.forward _ u_t) as [b|e] eqn:Eb; cbn [bind]; [|now exists e].
    apply mapM_length in Eb.
    rewrite madd_batch_mismatch by lia. now exists RuntimeError. }
  destruct Hstep as [e He]. now rewrite (forward_first_step e He).
Qed.

(** Each pass of the loop appends the current state to [behavStates]. *)
Lemma body_appends (j : nat) (x x' : mat F) (Bs Bs' Zs Zs' : list (mat F)) :
  Optim1.body p y u j (x, Bs, Zs) = Ok (x', Bs', Zs') -> Bs' = Bs ++ [x].
Proof.
  unfold Optim1.body.
  destruct (select_t y j); cbn [bind]; [|discriminate].
  destruct (select_t u j); cbn [bind]; [|discriminate].
  destruct (Optim1Cell.forward _ _ _ _); cbn [bind]; [|discriminate].
  destruct (NonlinearOptim1CellZ.forward _ _); cbn [bind]; [|discriminate].
  intros E. inversion E. reflexivity.
Qed.

Lemma loop_appends (ts : list nat) :
  forall (x x' : mat F) (Bs Bs' Zs Zs' : list (mat F)),
    for_each (Optim1.body p y u) ts (x, Bs, Zs) = Ok (x', Bs', Zs') ->
    exists more, Bs' = Bs ++ more.
Proof.
  induction ts as [|t ts IH]; intros x x' Bs Bs' Zs Zs'; cbn [for_each].
  - intros E. inversion E. exists []. now rewrite app_nil_r.
  - destruct (Optim1.body p y u t (x, Bs, Zs)) as [[[x1 Bs1] Zs1]|e] eqn:Eb;
      cbn [bind]; [|discriminate].
    intros E. apply body_appends in Eb. subst Bs1.
    destruct (IH _ _ _ _ _ _ E) as [more ->].
    exists (x :: more). now rewrite <- app_assoc.
Qed.

(** With one batch element in [y] and in the state, and at least two in
    [u], the updated state has the batch size of [u]. *)
Lemma body_widens (j : nat) (x x' : mat F) (Bs Bs' Zs Zs' : list (mat F)) :
  length y = 1 -> length x = 1 -> 2 <= length u ->
  Optim1.body p y u j (x, Bs, Zs) = Ok (x', Bs', Zs') -> length x' = length u.
Proof.
  intros Hly Hlx Hlu. unfold Optim1.body.
  destruct (select_t y j) as [y_t|e] eqn:Ey; cbn [bind]; [|discriminate].
  destruct (select_t u j) as [u_t|e] eqn:Eu; cbn [bind]; [|discriminate].
  apply mapM_length in Ey, Eu.
  unfold Optim1Cell.forward.
  destruct (Linear.forward _ x) as [a|e] eqn:Ea; cbn [bind]; [|discriminate].
  destruct (Linear.forward _ y_t) as [k|e] eqn:Ek; cbn [bind]; [|discriminate].
  apply mapM_length in Ea, Ek.
  destruct (madd a k) as [ak|e] eqn:Eak; cbn [bind]; [|discriminate].
  apply madd_length in Eak; [|lia].
  destruct (Linear.forward _ u_t) as [b|e] eqn:Eb; cbn [bind]; [|discriminate].
  apply mapM_length in Eb.
  destruct (madd ak b) as [xn|e] eqn:Ex; cbn [bind]; [|discriminate].
  destruct (NonlinearOptim1CellZ.forward _ x); cbn [bind]; [|discriminate].
  intros E. inversion E. subst x'.
  unfold madd, bcast in Ex.
  destruct ak as [|r [|r' ak]]; simpl in Eak; try lia.
  destruct (length [r] =? length b) eqn:El.
  - apply Nat.eqb_eq in El. simpl in El. lia.
  - apply mapM_length in Ex. lia.
Qed.

(** [y] has one batch element, [u] at least two, and there are at least two
    time steps: the states to stack differ in batch size. *)
Lemma forward_batch_one :
  B = 1 -> 2 <= Bu -> 2 <= T -> is_err (Optim1.forward p y u) = true.
Proof.
  intros HB1 HBu2 HT2.
  destruct (proj1 (has_shape3_spec y B T wy) Hy) as [Hly _].
  destruct (proj1 (has_shape3_spec u Bu Tu wu) Hu) as [Hlu _].
  unfold Optim1.forward.
  rewrite (has_shape3_size1 y B T wy Hy HB). unfold for_range, size0.
  assert (HTn : exists n, T = S (S n)) by (exists (T - 2); lia).
  destruct HTn as [n HTn]. rewrite HTn. cbn [seq for_each].
  destruct (Optim1.body p y u 0 _) as [[[x1 Bs1] Zs1]|e] eqn:E0;
    cbn [bind]; [|reflexivity].
  destruct (Optim1.body p y u 1 _) as [[[x2 Bs2] Zs2]|e] eqn:E1;
    cbn [bind]; [|reflexivity].
  destruct (for_each _ _ _) as [[[x3 Bs3] Zs3]|e] eqn:E2; cbn [bind]; [|reflexivity].
  assert (Hx1 : length x1 = length u).
  { apply (body_widens 0 _ _ _ _ _ _ ltac:(lia)) in E0; auto; [|lia].
    unfold zeros. rewrite repeat_length. lia. }
  apply body_appends in E0, E1. apply loop_appends in E2 as [more E2].
  subst Bs1 Bs2 Bs3. cbn [app]. unfold stack_dim1.
  assert (Hs : same_shape2 (zeros (length y) (Optim1.xBehav_size p)) x1 = false).
  { unfold same_shape2, zeros. rewrite repeat_length.
    replace (length y =? length x1) with false; [reflexivity|].
    symmetry. apply Nat.eqb_neq. lia. }
  cbn [forallb]. now rewrite Hs.
Qed.

(** A batch-size disagreement that is rejected. *)
Lemma forward_batch_differs :
  1 <= Bu -> B <> Bu -> Bu <> 1 -> B <> 1 \/ 2 <= T ->
  is_err (Optim1.forward p y u) = true.
Proof.
  intros HBu Hne Hn1 Hc.
  destruct (Nat.eq_dec B 1) as [HB1 | HB1].
  - apply forward_batch_one; lia.
  - apply forward_batch_mismatch; lia.
Qed.

(** [u] has more time steps than [y]: the call succeeds and reads the
    first [T] steps of [u] only. *)
Lemma forward_u_long :
  wy = dy -> wu = du -> Bu = B -> T <= Tu ->
  is_err (Optim1.forward p y u) = false
  /\ Optim1.forward p y u = Optim1.forward p y (map (firstn T) u).
Proof.
  intros Hwy Hwu HBu HTu.
  assert (Hy' : has_shape3 y B T dy = true) by now rewrite <- Hwy.
  assert (Hu' : has_shape3 u B Tu du = true) by now rewrite <- Hwu, <- HBu.
  rewrite (Optim1_forward_closed_form p xb dy du yh dz Hp y u B T Tu Hy' Hu' HB HT HTu).
  split; [reflexivity|].
  rewrite (Optim1_forward_closed_form p xb dy du yh dz Hp y _ B T T Hy'
             (has_shape3_firstn u B Tu du T Hu' HTu) HB HT (le_n T)).
  rewrite combine_map_r, !map_map. cbn [fst snd].
  f_equal. f_equal; apply map_ext; intros io; apply map_ext_in; intros t Ht;
    apply in_seq in Ht; unfold Optim1_states; now rewrite states_firstn_u by lia.
Qed.
End Stage1Shapes.

Section Stage2Shapes.
Context {F : Type} `{Scalar F}.

Lemma cat_dim2_mismatch (y behav : tensor3 F) (B T wy Bb Tb wb : nat) :
  has_shape3 y B T wy = true -> has_shape3 behav Bb Tb wb = true ->
  1 <= B -> 1 <= Bb -> Bb <> B \/ Tb <> T ->
  cat_dim2 y behav = Err RuntimeError.
Proof.
  intros Hy Hb HB HBb Hne. unfold cat_dim2.
  rewrite (has_shape3_size1 y B T wy Hy HB), (has_shape3_size1 behav Bb Tb wb Hb HBb).
  apply has_shape3_spec in Hy as [Hl _]. apply has_shape3_spec in Hb as [Hl' _].
  unfold size0. rewrite Hl, Hl'.
  destruct (Nat.eqb_spec B Bb), (Nat.eqb_spec T Tb); simpl; try reflexivity.
  destruct Hne; congruence.
Qed.

(** After a successful concatenation, Stage 2 runs the Stage-1 loop. *)
Lemma Optim3_forward_after_cat (p : Optim3.t F) (behav y u : tensor3 F)
  (B T wy wb : nat) :
  has_shape3 y B T wy = true -> has_shape3 behav B T wb = true -> 1 <= B ->
  Optim3.forward p behav y u
  = Optim1.forward (Optim3_as_Optim1 p) (zipWith (zipWith (@app F)) y behav) u.
Proof.
  intros Hy Hb HB.
  now rewrite Optim3_forward_as_Optim1, (cat_dim2_ok y behav B T wy wb Hy Hb HB).
Qed.
End Stage2Shapes.

(** C5, as the code has it.  Neither forward pass checks shapes itself; a
    call fails where a tensor operation rejects its operands.  For
    rectangular inputs with batch sizes of at least 1, [y] with a length of
    at least 1: the call fails when the feature width of [y] (in Stage 2: of
    [y] and [behavStates] together) or of [u] is not the configured one,
    when [u] has fewer time steps than [y] (with an index error when all
    else agrees), and when the batch sizes of [y] and [u] differ, unless [u]
    has a batch size of 1 or [y] has a batch size of 1 and a single time
    step; [Optim3.forward] also fails when [behavStates] and [y] differ in
    batch size or length.  An [u] with more time steps than [y] is accepted:
    the call succeeds and reads the first [T] steps of [u] only. *)
Theorem forward_shape_mismatch {F : Type} `{Scalar F} (p1 : Optim1.t F) (p3 : Optim3.t F)
  (xb xn dy du yh dz : nat) (behavStates y u : tensor3 F)
  (B T wy Bu Tu wu Bb Tb wb : nat) :
  Optim1.constructed p1 xb dy du yh dz = true ->
  Optim3.constructed p3 xb xn dy du yh dz = true ->
  has_shape3 y B T wy = true -> has_shape3 u Bu Tu wu = true ->
  has_shape3 behavStates Bb Tb wb = true ->
  1 <= B -> 1 <= T -> 1 <= Bu -> 1 <= Bb ->
  (wy <> dy -> is_err (Optim1.forward p1 y u) = true)
  /\ (wu <> du -> is_err (Optim1.forward p1 y u) = true)
  /\ (Tu < T -> is_err (Optim1.forward p1 y u) = true)
  /\ (wy = dy -> wu = du -> Bu = B -> Tu < T -> Optim1.forward p1 y u = Err IndexError)
  /\ (B <> Bu -> Bu <> 1 -> B <> 1 \/ 2 <= T ->
      is_err (Optim1.forward p1 y u) = true)
  /\ (wy = dy -> wu = du -> Bu = B -> T <= Tu ->
      is_err (Optim1.forward p1 y u) = false
      /\ Optim1.forward p1 y u = Optim1.forward p1 y (map (firstn T) u))
  /\ (Bb <> B \/ Tb <> T -> Optim3.forward p3 behavStates y u = Err RuntimeError)
  /\ (wy + wb <> dy + xb -> is_err (Optim3.forward p3 behavStates y u) = true)
  /\ (wu <> du -> is_err (Optim3.forward p3 behavStates y u) = true)
  /\ (Tu < T -> is_err (Optim3.forward p3 behavStates y u) = true)
  /\ (Bb = B -> Tb = T -> wy + wb = dy + xb -> wu = du -> Bu = B -> Tu < T ->
      Optim3.forward p3 behavStates y u = Err IndexError)
  /\ (B <> Bu -> Bu <> 1 -> B <> 1 \/ 2 <= T ->
      is_err (Optim3.forward p3 behavStates y u) = true)
  /\ (Bb = B -> Tb = T -> wy + wb = dy + xb -> wu = du -> Bu = B -> T <= Tu ->
      is_err (Optim3.forward p3 behavStates y u) = false
      /\ Optim3.forward p3 behavStates y u
         = Optim3.forward p3 behavStates y (map (firstn T) u)).
Proof.
  intros Hp1 Hp3 Hy Hu Hb HB HT HBu HBb.
  pose proof (Optim3_constructed_as_Optim1 p3 xb xn dy du yh dz Hp3) as Hp31.
  assert (Hd : Bb = B -> Tb = T ->
               has_shape3 (zipWith (zipWith (@app F)) y behavStates) B T (wy + wb) = true).
  { intros -> ->. now apply has_shape3_cat. }
  assert (Hred : forall u', Bb = B -> Tb = T ->
            Optim3.forward p3 behavStates y u'
            = Optim1.forward (Optim3_as_Optim1 p3)
                (zipWith (zipWith (@app F)) y behavStates) u').
  { intros u' -> ->. now apply (Optim3_forward_after_cat p3 behavStates y u' B T wy wb). }
  assert (Hcat : Bb <> B \/ Tb <> T ->
                 Optim3.forward p3 behavStates y u = Err RuntimeError).
  { intros Hne. rewrite Optim3_forward_as_Optim1.
    now rewrite (cat_dim2_mismatch y behavStates B T wy Bb Tb wb). }
  (* Stage 2 either fails at the concatenation or runs the Stage-1 loop. *)
  assert (Hcases : (Bb = B /\ Tb = T) \/ (Bb <> B \/ Tb <> T)) by lia.
  repeat apply conj.
  - intros Hw. eapply forward_y_width; eassumption.
  - intros Hw. eapply forward_u_width_any; eassumption.
  - intros HTu. eapply forward_u_short_any; eassumption.
  - intros Hwy Hwu HBu' HTu. eapply forward_u_short; eassumption.
  - intros Hne Hn1 Hc.
    eapply forward_batch_differs with (B := B) (T := T) (Bu := Bu); eassumption.
  - intros Hwy Hwu HBu' HTu. eapply forward_u_long; eassumption.
  - exact Hcat.
  - intros Hw. destruct Hcases as [[HBb' HTb] | Hne]; [|now rewrite Hcat].
    rewrite Hred by assumption.
    eapply forward_y_width with (B := B) (T := T) (wy := wy + wb);
      try eassumption; now apply Hd.
  - intros Hw. destruct Hcases as [[HBb' HTb] | Hne]; [|now rewrite Hcat].
    rewrite Hred by assumption.
    eapply forward_u_width_any with (B := B) (T := T) (wy := wy + wb);
      try eassumption; now apply Hd.
  - intros HTu. destruct Hcases as [[HBb' HTb] | Hne]; [|now rewrite Hcat].
    rewrite Hred by assumption.
    eapply forward_u_short_any with (B := B) (T := T) (wy := wy + wb);
      try eassumption; now apply Hd.
  - intros HBb' HTb Hw Hwu HBu' HTu. rewrite Hred by assumption.
    eapply forward_u_short with (B := B) (T := T) (wy := wy + wb);
      try eassumption; now apply Hd.
  - intros Hne' Hn1 Hc. destruct Hcases as [[HBb' HTb] | Hne]; [|now rewrite Hcat].
    rewrite Hred by assumption.
    eapply forward_batch_differs with (B := B) (T := T) (wy := wy + wb) (Bu := Bu);
      try eassumption; now apply Hd.
  - intros HBb' HTb Hw Hwu HBu' HTu. rewrite !Hred by assumption.
    eapply forward_u_long with (B := B) (T := T) (wy := wy + wb);
      try eassumption; now apply Hd.
Qed.

Lemma forward_shape_mismatch_witness :
  Optim1.forward p_ex y_ex u_short_ex = Err IndexError
  /\ Optim3.forward p3_ex behav_ex y_ex u_short_ex = Err IndexError
  /\ Optim1.forward p_ex y_ex u_long_ex = Optim1.forward p_ex y_ex (map (firstn 3) u_long_ex).
Proof.
  split; [|split].
  - destruct (forward_shape_mismatch p_ex p3_ex 2 1 1 1 1 1 behav_ex y_ex u_short_ex
                2 3 1 2 2 1 2 3 2 eq_refl eq_refl eq_refl eq_refl eq_refl
                ltac:(lia) ltac:(lia) ltac:(lia) ltac:(lia))
      as (_ & _ & _ & Hshort & _).
    apply Hshort; try reflexivity; lia.
  - destruct (forward_shape_mismatch p_ex p3_ex 2 1 1 1 1 1 behav_ex y_ex u_short_ex
                2 3 1 2 2 1 2 3 2 eq_refl eq_refl eq_refl eq_refl eq_refl
                ltac:(lia) ltac:(lia) ltac:(lia) ltac:(lia))
      as (_ & _ & _ & _ & _ & _ & _ & _ & _ & _ & Hshort3 & _).
    apply Hshort3; try reflexivity; lia.
  - destruct (forward_shape_mismatch p_ex p3_ex 2 1 1 1 1 1 behav_ex y_ex u_long_ex
                2 3 1 2 4 1 2 3 2 eq_refl eq_refl eq_refl eq_refl eq_refl
                ltac:(lia) ltac:(lia) ltac:(lia) ltac:(lia))
      as (_ & _ & _ & _ & _ & Hlong & _).
    apply Hlong; try reflexivity; lia.
Defined.

(** C5 as stated fails.  [y_ex] has shape (2, 3, 1).  An input stream one
    step longer is read up to step 3 and the call returns what it returns on
    [u_ex]; an input stream with a batch size of 1 is broadcast over the
    two batch elements of [y_ex]; Stage 2 accepts the longer stream too.
    With a single time step, a [y] of batch size 1 is accepted against an
    [u] of batch size 2; with two time steps that call fails. *)
Lemma forward_shape_mismatch_counterexample :
  has_shape3 y_ex 2 3 1 = true
  /\ has_shape3 u_long_ex 2 4 1 = true
  /\ Optim1.forward p_ex y_ex u_long_ex
     = Ok ([[[5];[9];[19]]; [[5];[9];[13]]]%Z,
           [[[0;0];[4;3];[9;14]]; [[0;0];[3;-1];[8;4]]]%Z)
  /\ Optim1.forward p_ex y_ex u_long_ex = Optim1.forward p_ex y_ex u_ex
  /\ has_shape3 u_one_ex 1 3 1 = true
  /\ Optim1.forward p_ex y_ex u_one_ex
     = Ok ([[[5];[9];[19]]; [[5];[7];[11]]]%Z,
           [[[0;0];[4;3];[9;14]]; [[0;0];[2;0];[5;6]]]%Z)
  /\ is_err (Optim3.forward p3_ex behav_ex y_ex u_long_ex) = false
  /\ has_shape3 y_b1_t1_ex 1 1 1 = true /\ has_shape3 u_b2_t1_ex 2 1 1 = true
  /\ Optim1.forward p_ex y_b1_t1_ex u_b2_t1_ex = Ok ([[[5]]]%Z, [[[0;0]]]%Z)
  /\ has_shape3 y_b1_t2_ex 1 2 1 = true /\ has_shape3 u_b2_t2_ex 2 2 1 = true
  /\ Optim1.forward p_ex y_b1_t2_ex u_b2_t2_ex = Err RuntimeError.
Proof. repeat apply conj; vm_compute; reflexivity. Qed.

(** * Further properties of the forward passes *)

(** ** The per-step decoders [Optim2] and [Optim4] *)

Lemma map_nth_seq {X Y : Type} (f : X -> Y) (m : list X) (d : X) :
  map (fun j => f (nth j m d)) (seq 0 (length m)) = map f m.
Proof.
  induction m as [|a m IH]; [reflexivity|].
  cbn [length seq map nth]. rewrite <- seq_shift, map_map. cbn [nth].
  now rewrite IH.
Qed.

Lemma has_shape3_rows_of_seq {F : Type} `{Scalar F} {X : Type} (g : X -> nat -> vec F)
  (l : list X) (T w : nat) :
  (forall a t, length (g a t) = w) ->
  has_shape3 (map (fun a => map (g a) (seq 0 T)) l) (length l) T w = true.
Proof.
  intros Hw. apply has_shape3_spec. rewrite length_map. split; [reflexivity|].
  intros m Hm. apply in_map_iff in Hm as [a [<- _]].
  rewrite length_map, length_seq. split; [reflexivity|].
  intros v Hv. apply in_map_iff in Hv as [t [<- _]]. apply Hw.
Qed.

Section Optim2Run.
Context {F : Type} `{Scalar F}.
Variables (p : Optim2.t F) (xb yh : nat).
Hypothesis Hp : Optim2.constructed p xb yh = true.
Variables (x : tensor3 F) (B T : nat).
Hypothesis Hx : has_shape3 x B T xb = true.

(** The predictions of step [j], for the whole batch. *)
Let Zr (j : nat) : mat F := map (fun m => Optim2_decoder p (nth j m [])) x.

Lemma Optim2_constructed_parts :
  Linear.constructed (Optim2.Cy1_lin p) xb xb = true
  /\ Linear.constructed (Optim2.Cy1_lin2 p) xb yh = true.
Proof.
  revert Hp. unfold Optim2.constructed. now rewrite andb_true_iff.
Qed.

Lemma Optim2_body_step (j : nat) (Ys : list (mat F)) :
  j < T -> Optim2.body p x j Ys = Ok (Ys ++ [Zr j]).
Proof.
  intros Hj. destruct Optim2_constructed_parts as [H1 H2].
  unfold Optim2.body. rewrite (select_t_ok x B T xb j Hx Hj). cbn [bind].
  rewrite linear_forward_map.
  2:{ intros m Hm. rewrite (constructed_in_features _ _ _ H1).
      now apply (has_shape3_row x B T xb). }
  cbn [bind]. rewrite map_map. rewrite linear_forward_map.
  2:{ intros m _. rewrite length_map, (affine_length _ _ _ _ H1).
      symmetry; eapply constructed_in_features; eassumption. }
  cbn [bind]. now rewrite map_map.
Qed.

Lemma Optim2_loop_steps (n : nat) :
  forall (k : nat) (Ys : list (mat F)),
    k + n <= T ->
    for_each (Optim2.body p x) (seq k n) Ys = Ok (Ys ++ map Zr (seq k n)).
Proof.
  induction n as [|n IH]; intros k Ys Hk; cbn [seq for_each map].
  - now rewrite app_nil_r.
  - rewrite Optim2_body_step by lia. cbn [bind].
    rewrite IH by lia. now rewrite <- app_assoc.
Qed.

Lemma Optim2_forward_closed_form :
  1 <= B -> 1 <= T ->
  Optim2.forward p x = Ok (map (map (Optim2_decoder p)) x).
Proof.
  intros HB HT. destruct Optim2_constructed_parts as [H1 H2].
  unfold Optim2.forward, for_range.
  rewrite (has_shape3_size1 x B T xb Hx HB).
  rewrite (Optim2_loop_steps T 0 []) by lia. cbn [bind app].
  unfold Zr.
  rewrite (stack_dim1_maps (fun j m => Optim2_decoder p (nth j m [])) (seq 0 T) x yh).
  - f_equal. apply map_ext_in. intros m Hm.
    destruct (proj1 (has_shape3_spec x B T xb) Hx) as [_ Hrows].
    destruct (Hrows m Hm) as [Hlen _]. rewrite <- Hlen.
    apply (map_nth_seq (Optim2_decoder p)).
  - destruct T; simpl; [lia | discriminate].
  - intros j m _ _. unfold Optim2_decoder. now apply decoder_length with (i := xb).
Qed.
End Optim2Run.

Lemma Optim4_forward_as_Optim2 {F : Type} `{Scalar F} (p : Optim4.t F) (x : tensor3 F) :
  Optim4.forward p x = Optim2.forward (Optim4_as_Optim2 p) x.
Proof. reflexivity. Qed.

(** X1.  On a state sequence of shape (B, T, Dxb) with [B >= 1] and
    [T >= 1], [Optim2.forward] returns the decoder
    sigmoid(lin2(relu(lin1(.)))) applied to the state of every batch element
    at every time step, in place: entry (b, t) of the output is a function
    of entry (b, t) of the input alone. *)
Theorem Optim2_forward_pointwise {F : Type} `{Scalar F} (p : Optim2.t F)
  (xb yh : nat) (xBehav : tensor3 F) (B T : nat) :
  Optim2.constructed p xb yh = true ->
  has_shape3 xBehav B T xb = true -> 1 <= B -> 1 <= T ->
  Optim2.forward p xBehav
  = Ok (map (map (decoder (Optim2.Cy1_lin p) (Optim2.Cy1_lin2 p))) xBehav).
Proof.
  intros Hp Hx HB HT.
  exact (Optim2_forward_closed_form p xb yh Hp xBehav B T Hx HB HT).
Qed.

Lemma Optim2_forward_pointwise_witness :
  Optim2.forward p2_ex behav_ex
  = Ok (map (map (decoder (Optim2.Cy1_lin p2_ex) (Optim2.Cy1_lin2 p2_ex))) behav_ex).
Proof.
  apply (Optim2_forward_pointwise p2_ex 2 1 behav_ex 2 3); try reflexivity; lia.
Defined.

(** X2.  The same for [Optim4.forward] on a residual state sequence of shape
    (B, T, Dxn). *)
Theorem Optim4_forward_pointwise {F : Type} `{Scalar F} (p : Optim4.t F)
  (xn dz : nat) (xNeural : tensor3 F) (B T : nat) :
  Optim4.constructed p xn dz = true ->
  has_shape3 xNeural B T xn = true -> 1 <= B -> 1 <= T ->
  Optim4.forward p xNeural
  = Ok (map (map (decoder (Optim4.Cz2_lin p) (Optim4.Cz2_lin2 p))) xNeural).
Proof.
  intros Hp Hx HB HT. rewrite Optim4_forward_as_Optim2.
  exact (Optim2_forward_closed_form (Optim4_as_Optim2 p) xn dz Hp xNeural B T Hx HB HT).
Qed.

Lemma Optim4_forward_pointwise_witness :
  Optim4.forward p4_ex [[[0];[3];[349]]; [[0];[3];[-60]]]%Z
  = Ok (map (map (decoder (Optim4.Cz2_lin p4_ex) (Optim4.Cz2_lin2 p4_ex)))
          [[[0];[3];[349]]; [[0];[3];[-60]]]%Z).
Proof.
  apply (Optim4_forward_pointwise p4_ex 1 1 _ 2 3); try reflexivity; lia.
Defined.

Example Optim2_forward_ex :
  Optim2.forward p2_ex behav_ex = Ok [[[4];[17];[49]]; [[4];[9];[27]]]%Z.
Proof. vm_compute. reflexivity. Qed.

(** ** Shapes of the outputs, and the readout of Stage 2 *)

Section OutputShapes.
Context {F : Type} `{Scalar F}.

Lemma Optim1_forward_shapes_aux (p : Optim1.t F) (xb dy du yh dz : nat)
  (y u : tensor3 F) (B T Tu : nat) :
  Optim1.constructed p xb dy du yh dz = true ->
  has_shape3 y B T dy = true -> has_shape3 u B Tu du = true ->
  1 <= B -> 1 <= T -> T <= Tu ->
  exists z_hats1 behavStates,
    Optim1.forward p y u = Ok (z_hats1, behavStates)
    /\ has_shape3 z_hats1 B T dz = true
    /\ has_shape3 behavStates B T xb = true.
Proof.
  intros Hp Hy Hu HB HT HTu.
  destruct (Optim1_constructed_parts p xb dy du yh dz Hp) as (_ & _ & _ & _ & _ & Hl2).
  eexists _, _. split.
  { exact (Optim1_forward_closed_form p xb dy du yh dz Hp y u B T Tu Hy Hu HB HT HTu). }
  assert (Hlen : length (combine y u) = B).
  { apply has_shape3_spec in Hy as [Hly _]. apply has_shape3_spec in Hu as [Hlu _].
    rewrite length_combine. lia. }
  rewrite <- Hlen. split.
  - apply (has_shape3_rows_of_seq
             (fun io t => Optim1_decoder p (Optim1_states p (fst io) (snd io) t))).
    intros io t. unfold Optim1_decoder. now apply decoder_length with (i := xb).
  - apply (has_shape3_rows_of_seq (fun io t => Optim1_states p (fst io) (snd io) t)).
    intros io t. now apply (Optim1_states_length p xb dy du yh dz Hp).
Qed.

(** The outputs of a successful Stage-2 call, one batch element at a time,
    in terms of the concatenated stream. *)
Lemma Optim3_forward_rows (p : Optim3.t F) (xb xn dy du yh dz : nat)
  (behav y u : tensor3 F) (B T Tu : nat) :
  Optim3.constructed p xb xn dy du yh dz = true ->
  has_shape3 behav B T xb = true ->
  has_shape3 y B T dy = true -> has_shape3 u B Tu du = true ->
  1 <= B -> 1 <= T -> T <= Tu ->
  exists y_hats2 xNeural_states,
    Optim3.forward p behav y u = Ok (y_hats2, xNeural_states)
    /\ has_shape3 y_hats2 B T yh = true
    /\ has_shape3 xNeural_states B T xn = true
    /\ forall b, b < B ->
         nth b xNeural_states []
         = map (Optim1_states (Optim3_as_Optim1 p)
                  (nth b (zipWith (zipWith (@app F)) y behav) []) (nth b u []))
             (seq 0 T)
         /\ nth b y_hats2 [] = map (Optim3_decoder p) (nth b xNeural_states []).
Proof.
  intros Hp Hb Hy Hu HB HT HTu.
  pose proof (Optim3_constructed_as_Optim1 p xb xn dy du yh dz Hp) as Hp1.
  pose proof (has_shape3_cat y behav B T dy xb Hy Hb) as Hd.
  destruct (Optim1_forward_shapes_aux _ _ _ _ _ _ _ u B T Tu Hp1 Hd Hu HB HT HTu)
    as (zs & xs & Hfw & Hsz & Hsx).
  destruct (Optim1_forward_rows _ _ _ _ _ _ Hp1 _ u B T Tu Hd Hu HB HT HTu)
    as (zs' & xs' & Hfw' & _ & _ & Hrows).
  rewrite Hfw in Hfw'. injection Hfw' as <- <-.
  exists zs, xs. split.
  { now rewrite (Optim3_forward_after_cat p behav y u B T dy xb Hy Hb HB). }
  split; [exact Hsz|]. split; [exact Hsx|].
  intros b Hlt. destruct (Hrows b Hlt) as [Hr Hz]. split; [exact Hr|].
  rewrite Hz, Hr, map_map. reflexivity.
Qed.

Lemma Optim2_forward_shape_aux (p : Optim2.t F) (xb yh : nat) (x : tensor3 F)
  (B T : nat) :
  Optim2.constructed p xb yh = true ->
  has_shape3 x B T xb = true -> 1 <= B -> 1 <= T ->
  exists y_hats1,
    Optim2.forward p x = Ok y_hats1 /\ has_shape3 y_hats1 B T yh = true.
Proof.
  intros Hp Hx HB HT. eexists. split.
  { exact (Optim2_forward_closed_form p xb yh Hp x B T Hx HB HT). }
  destruct (Optim2_constructed_parts p xb yh Hp) as [_ H2].
  apply has_shape3_spec in Hx as [Hl Hrows]. apply has_shape3_spec.
  rewrite length_map. split; [exact Hl|].
  intros m Hm. apply in_map_iff in Hm as [m' [<- Hm']].
  rewrite length_map. split; [now apply Hrows|].
  intros v Hv. apply in_map_iff in Hv as [v' [<- _]].
  unfold Optim2_decoder. now apply decoder_length with (i := xb).
Qed.
End OutputShapes.

(** X3.  At every time index [t] the Stage-2 prediction [y_hats2[:,t,:]] is
    the decoder sigmoid(lin2(relu(lin1(.)))) of the residual state stored at
    the same index [t] of [xNeural_states], not of the updated state. *)
Theorem Optim3_forward_readout {F : Type} `{Scalar F} (p : Optim3.t F)
  (xb xn dy du yh dz : nat) (behavStates y u : tensor3 F) (B T : nat) :
  Optim3.constructed p xb xn dy du yh dz = true ->
  has_shape3 behavStates B T xb = true ->
  has_shape3 y B T dy = true -> has_shape3 u B T du = true ->
  1 <= B -> 1 <= T ->
  exists y_hats2 xNeural_states,
    Optim3.forward p behavStates y u = Ok (y_hats2, xNeural_states)
    /\ length y_hats2 = B
    /\ forall b, b < B ->
         length (nth b y_hats2 []) = T
         /\ forall t, t < T ->
              nth t (nth b y_hats2 []) []
              = decoder (NonlinearOptim3CellY.Cy2_lin (Optim3.nonlinear_cellY p))
                  (NonlinearOptim3CellY.Cy2_lin2 (Optim3.nonlinear_cellY p))
                  (nth t (nth b xNeural_states []) []).
Proof.
  intros Hp Hb Hy Hu HB HT.
  destruct (Optim3_forward_rows p xb xn dy du yh dz behavStates y u B T T
              Hp Hb Hy Hu HB HT (le_n T)) as (ys & xs & Hfw & Hsy & Hsx & Hrows).
  exists ys, xs. split; [exact Hfw|].
  apply has_shape3_spec in Hsy as [Hly Hmy]. apply has_shape3_spec in Hsx as [Hlx Hmx].
  split; [exact Hly|].
  intros b Hlt.
  destruct (Hmy (nth b ys [])) as [HTy _]; [apply nth_In; lia|].
  destruct (Hmx (nth b xs [])) as [HTx _]; [apply nth_In; lia|].
  split; [exact HTy|].
  intros t Ht. destruct (Hrows b Hlt) as [_ Hz]. rewrite Hz.
  now rewrite (nth_map_lt (Optim3_decoder p) (nth b xs []) t [] []) by lia.
Qed.

Lemma Optim3_forward_readout_witness :
  exists y_hats2 xNeural_states,
    Optim3.forward p3_ex behav_ex y_ex u_ex = Ok (y_hats2, xNeural_states)
    /\ length y_hats2 = 2
    /\ forall b, b < 2 ->
         length (nth b y_hats2 []) = 3
         /\ forall t, t < 3 ->
              nth t (nth b y_hats2 []) []
              = decoder (NonlinearOptim3CellY.Cy2_lin (Optim3.nonlinear_cellY p3_ex))
                  (NonlinearOptim3CellY.Cy2_lin2 (Optim3.nonlinear_cellY p3_ex))
                  (nth t (nth b xNeural_states []) []).
Proof.
  apply (Optim3_forward_readout p3_ex 2 1 1 1 1 1 behav_ex y_ex u_ex 2 3);
    try reflexivity; lia.
Defined.

(** X4.  On inputs of shapes (B, T, Dy) and (B, T, Du), [Optim1.forward]
    returns predictions of shape (B, T, Dz) and states of shape (B, T, Dxb):
    rectangular, with the configured widths. *)
Theorem Optim1_forward_shapes {F : Type} `{Scalar F} (p : Optim1.t F)
  (xb dy du yh dz : nat) (y u : tensor3 F) (B T : nat) :
  Optim1.constructed p xb dy du yh dz = true ->
  has_shape3 y B T dy = true -> has_shape3 u B T du = true ->
  1 <= B -> 1 <= T ->
  exists z_hats1 behavStates,
    Optim1.forward p y u = Ok (z_hats1, behavStates)
    /\ has_shape3 z_hats1 B T dz = true
    /\ has_shape3 behavStates B T xb = true.
Proof.
  intros Hp Hy Hu HB HT.
  exact (Optim1_forward_shapes_aux p xb dy du yh dz y u B T T Hp Hy Hu HB HT (le_n T)).
Qed.

Lemma Optim1_forward_shapes_witness :
  exists z_hats1 behavStates,
    Optim1.forward p_ex y_ex u_ex = Ok (z_hats1, behavStates)
    /\ has_shape3 z_hats1 2 3 1 = true
    /\ has_shape3 behavStates 2 3 2 = true.
Proof.
  apply (Optim1_forward_shapes p_ex 2 1 1 1 1 y_ex u_ex 2 3); try reflexivity; lia.
Defined.

(** X5.  On well-shaped inputs [Optim3.forward] returns predictions of shape
    (B, T, yhat_size) and residual states of shape (B, T, Dxn). *)
Theorem Optim3_forward_shapes {F : Type} `{Scalar F} (p : Optim3.t F)
  (xb xn dy du yh dz : nat) (behavStates y u : tensor3 F) (B T : nat) :
  Optim3.constructed p xb xn dy du yh dz = true ->
  has_shape3 behavStates B T xb = true ->
  has_shape3 y B T dy = true -> has_shape3 u B T du = true ->
  1 <= B -> 1 <= T ->
  exists y_hats2 xNeural_states,
    Optim3.forward p behavStates y u = Ok (y_hats2, xNeural_states)
    /\ has_shape3 y_hats2 B T yh = true
    /\ has_shape3 xNeural_states B T xn = true.
Proof.
  intros Hp Hb Hy Hu HB HT.
  destruct (Optim3_forward_rows p xb xn dy du yh dz behavStates y u B T T
              Hp Hb Hy Hu HB HT (le_n T)) as (ys & xs & Hfw & Hsy & Hsx & _).
  now exists ys, xs.
Qed.

Lemma Optim3_forward_shapes_witness :
  exists y_hats2 xNeural_states,
    Optim3.forward p3_ex behav_ex y_ex u_ex = Ok (y_hats2, xNeural_states)
    /\ has_shape3 y_hats2 2 3 1 = true
    /\ has_shape3 xNeural_states 2 3 1 = true.
Proof.
  apply (Optim3_forward_shapes p3_ex 2 1 1 1 1 1 behav_ex y_ex u_ex 2 3);
    try reflexivity; lia.
Defined.

(** ** Edge cases: no time step, a wrong state width *)

Section EdgeCases.
Context {F : Type} `{Scalar F}.

Lemma Optim2_forward_no_step (p : Optim2.t F) (x : tensor3 F) :
  size1 x = 0 -> Optim2.forward p x = Err RuntimeError.
Proof. intros Hs. unfold Optim2.forward. now rewrite Hs. Qed.

Lemma Optim1_forward_no_step (p : Optim1.t F) (y u : tensor3 F) :
  size1 y = 0 -> Optim1.forward p y u = Err RuntimeError.
Proof.
  intros Hs. unfold Optim1.forward. rewrite Hs. cbn. reflexivity.
Qed.

Lemma Optim3_forward_no_step (p : Optim3.t F) (behav y u : tensor3 F) :
  size1 y = 0 -> Optim3.forward p behav y u = Err RuntimeError.
Proof.
  intros Hs. unfold Optim3.forward, cat_dim2. rewrite Hs.
  destruct ((size0 y =? size0 behav) && (0 =? size1 behav)); cbn; reflexivity.
Qed.

Lemma Optim2_forward_width_aux (p : Optim2.t F) (xb yh : nat) (x : tensor3 F)
  (B T w : nat) :
  Optim2.constructed p xb yh = true ->
  has_shape3 x B T w = true -> 1 <= B -> 1 <= T -> w <> xb ->
  Optim2.forward p x = Err RuntimeError.
Proof.
  intros Hp Hx HB HT Hw. destruct (Optim2_constructed_parts p xb yh Hp) as [H1 _].
  unfold Optim2.forward, for_range.
  rewrite (has_shape3_size1 x B T w Hx HB).
  destruct T as [|T']; [lia|]. cbn [seq for_each].
  unfold Optim2.body at 1.
  rewrite (select_t_ok x B (S T') w 0 Hx HT). cbn [bind].
  rewrite linear_forward_width; [reflexivity | |].
  - apply has_shape3_spec in Hx as [Hl _]. destruct x; simpl in *; [lia | discriminate].
  - intros m Hm. rewrite (constructed_in_features _ _ _ H1).
    now rewrite (has_shape3_row x B (S T') w m 0 Hx Hm HT).
Qed.
End EdgeCases.

(** X6.  A sequence with no time step is an error, not an empty result:
    when the tensor that gives the loop its length has shape (B, 0, .), each
    of the four forward passes fails with a runtime error, from stacking an
    empty list, whatever the parameters and the other arguments. *)
Theorem forward_empty_sequence {F : Type} `{Scalar F} (p1 : Optim1.t F) (p2 : Optim2.t F)
  (p3 : Optim3.t F) (p4 : Optim4.t F) (x u behavStates : tensor3 F) (B w : nat) :
  has_shape3 x B 0 w = true -> 1 <= B ->
  Optim1.forward p1 x u = Err RuntimeError
  /\ Optim2.forward p2 x = Err RuntimeError
  /\ Optim3.forward p3 behavStates x u = Err RuntimeError
  /\ Optim4.forward p4 x = Err RuntimeError.
Proof.
  intros Hx HB. pose proof (has_shape3_size1 x B 0 w Hx HB) as Hs.
  repeat apply conj.
  - now apply Optim1_forward_no_step.
  - now apply Optim2_forward_no_step.
  - now apply Optim3_forward_no_step.
  - rewrite Optim4_forward_as_Optim2. now apply Optim2_forward_no_step.
Qed.

Lemma forward_empty_sequence_witness :
  Optim1.forward p_ex y_empty_ex u_ex = Err RuntimeError
  /\ Optim2.forward p2_ex y_empty_ex = Err RuntimeError
  /\ Optim3.forward p3_ex behav_empty_ex y_empty_ex u_ex = Err RuntimeError
  /\ Optim4.forward p4_ex y_empty_ex = Err RuntimeError.
Proof.
  apply (forward_empty_sequence p_ex p2_ex p3_ex p4_ex y_empty_ex u_ex behav_empty_ex 2 1);
    try reflexivity; lia.
Defined.

(** X7.  [Optim2.forward] and [Optim4.forward] reject a state sequence whose
    feature width is not the configured one: on a rectangular input with
    [B >= 1] and [T >= 1] the first layer fails at the first time step and
    the call ends in a runtime error. *)
Theorem decoder_forward_wrong_width {F : Type} `{Scalar F} (p2 : Optim2.t F)
  (p4 : Optim4.t F) (xb yh xn dz : nat) (x : tensor3 F) (B T w : nat) :
  Optim2.constructed p2 xb yh = true ->
  Optim4.constructed p4 xn dz = true ->
  has_shape3 x B T w = true -> 1 <= B -> 1 <= T ->
  (w <> xb -> Optim2.forward p2 x = Err RuntimeError)
  /\ (w <> xn -> Optim4.forward p4 x = Err RuntimeError).
Proof.
  intros Hp2 Hp4 Hx HB HT. split; intros Hw.
  - exact (Optim2_forward_width_aux p2 xb yh x B T w Hp2 Hx HB HT Hw).
  - rewrite Optim4_forward_as_Optim2.
    exact (Optim2_forward_width_aux (Optim4_as_Optim2 p4) xn dz x B T w Hp4 Hx HB HT Hw).
Qed.

Lemma decoder_forward_wrong_width_witness :
  Optim2.forward p2_ex y_ex = Err RuntimeError
  /\ Optim4.forward p4_ex behav_ex = Err RuntimeError.
Proof.
  destruct (decoder_forward_wrong_width p2_ex p4_ex 2 1 1 1 y_ex 2 3 1
              eq_refl eq_refl eq_refl ltac:(lia) ltac:(lia)) as [H2 _].
  destruct (decoder_forward_wrong_width p2_ex p4_ex 2 1 1 1 behav_ex 2 3 2
              eq_refl eq_refl eq_refl ltac:(lia) ltac:(lia)) as [_ H4].
  split; [apply H2 | apply H4]; lia.
Defined.

(** ** The two stages composed *)

(** X8.  The four components fit together: on inputs of shapes (B, T, Dy)
    and (B, T, Du), Stage 1 returns; its state sequence is accepted by
    [Optim2.forward] and, with the same [y] and [u], by [Optim3.forward];
    the residual states of Stage 2 are accepted by [Optim4.forward]; and
    every output has batch size [B], length [T] and its configured width. *)
Theorem two_stage_pipeline {F : Type} `{Scalar F} (p1 : Optim1.t F) (p2 : Optim2.t F)
  (p3 : Optim3.t F) (p4 : Optim4.t F)
  (xb xn dy du yh1 dz1 yh2 yh3 dz3 dz4 : nat) (y u : tensor3 F) (B T : nat) :
  Optim1.constructed p1 xb dy du yh1 dz1 = true ->
  Optim2.constructed p2 xb yh2 = true ->
  Optim3.constructed p3 xb xn dy du yh3 dz3 = true ->
  Optim4.constructed p4 xn dz4 = true ->
  has_shape3 y B T dy = true -> has_shape3 u B T du = true ->
  1 <= B -> 1 <= T ->
  exists z_hats1 behavStates y_hats1 y_hats2 xNeural_states z_hats2,
    Optim1.forward p1 y u = Ok (z_hats1, behavStates)
    /\ Optim2.forward p2 behavStates = Ok y_hats1
    /\ Optim3.forward p3 behavStates y u = Ok (y_hats2, xNeural_states)
    /\ Optim4.forward p4 xNeural_states = Ok z_hats2
    /\ has_shape3 z_hats1 B T dz1 = true
    /\ has_shape3 behavStates B T xb = true
    /\ has_shape3 y_hats1 B T yh2 = true
    /\ has_shape3 y_hats2 B T yh3 = true
    /\ has_shape3 xNeural_states B T xn = true
    /\ has_shape3 z_hats2 B T dz4 = true.
Proof.
  intros Hp1 Hp2 Hp3 Hp4 Hy Hu HB HT.
  destruct (Optim1_forward_shapes_aux p1 xb dy du yh1 dz1 y u B T T
              Hp1 Hy Hu HB HT (le_n T)) as (z1 & bs & Hfw1 & Hsz1 & Hsb).
  destruct (Optim2_forward_shape_aux p2 xb yh2 bs B T Hp2 Hsb HB HT)
    as (y1 & Hfw2 & Hsy1).
  destruct (Optim3_forward_rows p3 xb xn dy du yh3 dz3 bs y u B T T
              Hp3 Hsb Hy Hu HB HT (le_n T)) as (y2 & xs & Hfw3 & Hsy2 & Hsx & _).
  destruct (Optim2_forward_shape_aux (Optim4_as_Optim2 p4) xn dz4 xs B T Hp4 Hsx HB HT)
    as (z2 & Hfw4 & Hsz2).
  exists z1, bs, y1, y2, xs, z2.
  rewrite Optim4_forward_as_Optim2. repeat split; assumption.
Qed.

Lemma two_stage_pipeline_witness :
  exists z_hats1 behavStates y_hats1 y_hats2 xNeural_states z_hats2,
    Optim1.forward p_ex y_ex u_ex = Ok (z_hats1, behavStates)
    /\ Optim2.forward p2_ex behavStates = Ok y_hats1
    /\ Optim3.forward p3_ex behavStates y_ex u_ex = Ok (y_hats2, xNeural_states)
    /\ Optim4.forward p4_ex xNeural_states = Ok z_hats2
    /\ has_shape3 z_hats1 2 3 1 = true
    /\ has_shape3 behavStates 2 3 2 = true
    /\ has_shape3 y_hats1 2 3 1 = true
    /\ has_shape3 y_hats2 2 3 1 = true
    /\ has_shape3 xNeural_states 2 3 1 = true
    /\ has_shape3 z_hats2 2 3 1 = true.
Proof.
  apply (two_stage_pipeline p_ex p2_ex p3_ex p4_ex 2 1 1 1 1 1 1 1 1 1 y_ex u_ex 2 3);
    try reflexivity; lia.
Defined.

(** ** What an output entry depends on *)

Section Dependence.
Context {F : Type} `{Scalar F}.
Variable p : Optim1.t F.

(** The first [n] states of a batch element need the first [n - 1] steps of
    its inputs only. *)
Lemma rows_depend_on_prefix {E : Type} (h : vec F -> E) (n k : nat) (y u : tensor3 F) :
  n <= S k ->
  map (fun io => map (fun t => h (Optim1_states p (fst io) (snd io) t)) (seq 0 n))
    (combine y u)
  = map (fun io => map (fun t => h (Optim1_states p (fst io) (snd io) t)) (seq 0 n))
      (combine (map (firstn k) y) (map (firstn k) u)).
Proof.
  intros Hn. rewrite combine_map_both, map_map. cbn [fst snd].
  apply map_ext. intros io. apply map_ext_in. intros t Ht. apply in_seq in Ht.
  unfold Optim1_states. now rewrite states_firstn by lia.
Qed.

Lemma rows_firstn {E X : Type} (g : X -> nat -> E) (n T : nat) (l : list X) :
  n <= T ->
  map (firstn n) (map (fun io => map (g io) (seq 0 T)) l)
  = map (fun io => map (g io) (seq 0 n)) l.
Proof.
  intros Hn. rewrite map_map. apply map_ext. intros io.
  now rewrite firstn_map, firstn_seq_le.
Qed.

Lemma Optim1_forward_causal_aux (xb dy du yh dz : nat) (y u y' u' : tensor3 F)
  (B T k : nat) :
  Optim1.constructed p xb dy du yh dz = true ->
  has_shape3 y B T dy = true -> has_shape3 u B T du = true ->
  has_shape3 y' B T dy = true -> has_shape3 u' B T du = true ->
  1 <= B -> k < T ->
  map (firstn k) y = map (firstn k) y' ->
  map (firstn k) u = map (firstn k) u' ->
  exists z_hats1 behavStates z_hats1' behavStates',
    Optim1.forward p y u = Ok (z_hats1, behavStates)
    /\ Optim1.forward p y' u' = Ok (z_hats1', behavStates')
    /\ map (firstn (S k)) z_hats1 = map (firstn (S k)) z_hats1'
    /\ map (firstn (S k)) behavStates = map (firstn (S k)) behavStates'.
Proof.
  intros Hp Hy Hu Hy' Hu' HB Hk Ey Eu.
  eexists _, _, _, _. split.
  { exact (Optim1_forward_closed_form p xb dy du yh dz Hp y u B T T Hy Hu HB
             ltac:(lia) (le_n T)). }
  split.
  { exact (Optim1_forward_closed_form p xb dy du yh dz Hp y' u' B T T Hy' Hu' HB
             ltac:(lia) (le_n T)). }
  split.
  - rewrite !(rows_firstn
                (fun io t => Optim1_decoder p (Optim1_states p (fst io) (snd io) t)))
      by lia.
    rewrite (rows_depend_on_prefix (Optim1_decoder p) (S k) k y u (le_n _)).
    rewrite (rows_depend_on_prefix (Optim1_decoder p) (S k) k y' u' (le_n _)).
    now rewrite Ey, Eu.
  - rewrite !(rows_firstn (fun io t => Optim1_states p (fst io) (snd io) t)) by lia.
    rewrite (rows_depend_on_prefix (fun v => v) (S k) k y u (le_n _)).
    rewrite (rows_depend_on_prefix (fun v => v) (S k) k y' u' (le_n _)).
    now rewrite Ey, Eu.
Qed.

Lemma map_firstn_all (x : tensor3 F) (B T w : nat) :
  has_shape3 x B T w = true -> map (firstn T) x = x.
Proof.
  intros Hx. apply has_shape3_spec in Hx as [_ Hrows].
  rewrite <- (map_id x) at 2. apply map_ext_in. intros m Hm.
  destruct (Hrows m Hm) as [<- _]. apply firstn_all.
Qed.

Lemma Optim1_forward_last_step_aux (xb dy du yh dz : nat) (y u y' u' : tensor3 F)
  (B T : nat) :
  Optim1.constructed p xb dy du yh dz = true ->
  has_shape3 y B T dy = true -> has_shape3 u B T du = true ->
  has_shape3 y' B T dy = true -> has_shape3 u' B T du = true ->
  1 <= B -> 1 <= T ->
  map (firstn (T - 1)) y = map (firstn (T - 1)) y' ->
  map (firstn (T - 1)) u = map (firstn (T - 1)) u' ->
  exists z_hats1 behavStates,
    Optim1.forward p y u = Ok (z_hats1, behavStates)
    /\ Optim1.forward p y' u' = Ok (z_hats1, behavStates).
Proof.
  intros Hp Hy Hu Hy' Hu' HB HT Ey Eu.
  destruct (Optim1_forward_causal_aux xb dy du yh dz y u y' u' B T (T - 1)
              Hp Hy Hu Hy' Hu' HB ltac:(lia) Ey Eu)
    as (zs & bs & zs' & bs' & Hfw & Hfw' & Ez & Eb).
  destruct (Optim1_forward_shapes_aux p xb dy du yh dz y u B T T Hp Hy Hu HB HT (le_n T))
    as (zs0 & bs0 & Hfw0 & Hsz & Hsb).
  destruct (Optim1_forward_shapes_aux p xb dy du yh dz y' u' B T T Hp Hy' Hu' HB HT
              (le_n T)) as (zs1 & bs1 & Hfw1 & Hsz' & Hsb').
  rewrite Hfw in Hfw0. injection Hfw0 as <- <-.
  rewrite Hfw' in Hfw1. injection Hfw1 as <- <-.
  replace (S (T - 1)) with T in Ez, Eb by lia.
  rewrite (map_firstn_all zs B T dz Hsz), (map_firstn_all zs' B T dz Hsz') in Ez.
  rewrite (map_firstn_all bs B T xb Hsb), (map_firstn_all bs' B T xb Hsb') in Eb.
  subst zs' bs'. now exists zs, bs.
Qed.
End Dependence.

(** X9.  Stage 1 is strictly causal.  If two input pairs of the same shapes
    agree on their first [k] time steps, [k < T], the two runs agree on the
    first [k + 1] time steps of [z_hats1] and of [behavStates]: the outputs
    at index [t] depend on the inputs at indices below [t] only. *)
Theorem Optim1_forward_causal {F : Type} `{Scalar F} (p : Optim1.t F)
  (xb dy du yh dz : nat) (y u y' u' : tensor3 F) (B T k : nat) :
  Optim1.constructed p xb dy du yh dz = true ->
  has_shape3 y B T dy = true -> has_shape3 u B T du = true ->
  has_shape3 y' B T dy = true -> has_shape3 u' B T du = true ->
  1 <= B -> k < T ->
  map (firstn k) y = map (firstn k) y' ->
  map (firstn k) u = map (firstn k) u' ->
  exists z_hats1 behavStates z_hats1' behavStates',
    Optim1.forward p y u = Ok (z_hats1, behavStates)
    /\ Optim1.forward p y' u' = Ok (z_hats1', behavStates')
    /\ map (firstn (S k)) z_hats1 = map (firstn (S k)) z_hats1'
    /\ map (firstn (S k)) behavStates = map (firstn (S k)) behavStates'.
Proof.
  intros Hp Hy Hu Hy' Hu' HB Hk Ey Eu.
  exact (Optim1_forward_causal_aux p xb dy du yh dz y u y' u' B T k
           Hp Hy Hu Hy' Hu' HB Hk Ey Eu).
Qed.

Lemma Optim1_forward_causal_witness :
  exists z_hats1 behavStates z_hats1' behavStates',
    Optim1.forward p_ex y_ex u_ex = Ok (z_hats1, behavStates)
    /\ Optim1.forward p_ex y_last_ex u_last_ex = Ok (z_hats1', behavStates')
    /\ map (firstn 3) z_hats1 = map (firstn 3) z_hats1'
    /\ map (firstn 3) behavStates = map (firstn 3) behavStates'.
Proof.
  apply (Optim1_forward_causal p_ex 2 1 1 1 1 y_ex u_ex y_last_ex u_last_ex 2 3 2);
    try reflexivity; lia.
Defined.

(** X10.  The last time step of [y] and of [u] never reaches the outputs of
    [Optim1.forward]: two input pairs of the same shapes that agree on all
    but their last time step give the same [z_hats1] and the same
    [behavStates].  (The last step only enters the update that the loop
    computes and drops.) *)
Theorem Optim1_forward_last_step_unused {F : Type} `{Scalar F} (p : Optim1.t F)
  (xb dy du yh dz : nat) (y u y' u' : tensor3 F) (B T : nat) :
  Optim1.constructed p xb dy du yh dz = true ->
  has_shape3 y B T dy = true -> has_shape3 u B T du = true ->
  has_shape3 y' B T dy = true -> has_shape3 u' B T du = true ->
  1 <= B -> 1 <= T ->
  map (firstn (T - 1)) y = map (firstn (T - 1)) y' ->
  map (firstn (T - 1)) u = map (firstn (T - 1)) u' ->
  exists z_hats1 behavStates,
    Optim1.forward p y u = Ok (z_hats1, behavStates)
    /\ Optim1.forward p y' u' = Ok (z_hats1, behavStates).
Proof.
  intros Hp Hy Hu Hy' Hu' HB HT Ey Eu.
  exact (Optim1_forward_last_step_aux p xb dy du yh dz y u y' u' B T
           Hp Hy Hu Hy' Hu' HB HT Ey Eu).
Qed.

Lemma Optim1_forward_last_step_unused_witness :
  exists z_hats1 behavStates,
    Optim1.forward p_ex y_ex u_ex = Ok (z_hats1, behavStates)
    /\ Optim1.forward p_ex y_last_ex u_last_ex = Ok (z_hats1, behavStates).
Proof.
  apply (Optim1_forward_last_step_unused p_ex 2 1 1 1 1 y_ex u_ex y_last_ex u_last_ex 2 3);
    try reflexivity; lia.
Defined.

Lemma has_shape3_singleton {F : Type} `{Scalar F} (x : tensor3 F) (B T w b : nat) :
  has_shape3 x B T w = true -> b < B -> has_shape3 [nth b x []] 1 T w = true.
Proof.
  intros Hx Hb. apply has_shape3_spec in Hx as [Hl Hrows]. apply has_shape3_spec.
  split; [reflexivity|]. intros m [<- | []]. apply Hrows, nth_In. lia.
Qed.

(** X11.  Batch elements do not interact in Stage 1: row [b] of each output
    of a batched call is what [Optim1.forward] returns when it is called on
    batch element [b] alone. *)
Theorem Optim1_forward_batch_independent {F : Type} `{Scalar F} (p : Optim1.t F)
  (xb dy du yh dz : nat) (y u : tensor3 F) (B T b : nat) :
  Optim1.constructed p xb dy du yh dz = true ->
  has_shape3 y B T dy = true -> has_shape3 u B T du = true ->
  1 <= T -> b < B ->
  exists z_hats1 behavStates,
    Optim1.forward p y u = Ok (z_hats1, behavStates)
    /\ Optim1.forward p [nth b y []] [nth b u []]
       = Ok ([nth b z_hats1 []], [nth b behavStates []]).
Proof.
  intros Hp Hy Hu HT Hb.
  destruct (Optim1_forward_rows p xb dy du yh dz Hp y u B T T Hy Hu
              ltac:(lia) HT (le_n T)) as (zs & bs & Hfw & _ & _ & Hrows).
  exists zs, bs. split; [exact Hfw|].
  rewrite (Optim1_forward_closed_form p xb dy du yh dz Hp _ _ 1 T T
             (has_shape3_singleton y B T dy b Hy Hb)
             (has_shape3_singleton u B T du b Hu Hb) (le_n 1) HT (le_n T)).
  destruct (Hrows b Hb) as [Hr Hz]. now rewrite Hr, Hz.
Qed.

Lemma Optim1_forward_batch_independent_witness :
  exists z_hats1 behavStates,
    Optim1.forward p_ex y_ex u_ex = Ok (z_hats1, behavStates)
    /\ Optim1.forward p_ex [nth 1 y_ex []] [nth 1 u_ex []]
       = Ok ([nth 1 z_hats1 []], [nth 1 behavStates []]).
Proof.
  apply (Optim1_forward_batch_independent p_ex 2 1 1 1 1 y_ex u_ex 2 3 1);
    try reflexivity; lia.
Defined.

(** ** What Stage 2 reads of its inputs *)

Lemma firstn_zipWith {A B C : Type} (f : A -> B -> C) (k : nat) (xs : list A)
  (ys : list B) :
  firstn k (zipWith f xs ys) = zipWith f (firstn k xs) (firstn k ys).
Proof.
  revert xs ys; induction k as [|k IH]; intros [|a xs] [|b ys]; simpl;
    try reflexivity. now rewrite IH.
Qed.

Lemma map_firstn_cat {F : Type} (k : nat) (y behav : tensor3 F) :
  map (firstn k) (zipWith (zipWith (@app F)) y behav)
  = zipWith (zipWith (@app F)) (map (firstn k) y) (map (firstn k) behav).
Proof.
  revert behav; induction y as [|m y IH]; intros [|m' behav]; simpl; try reflexivity.
  now rewrite firstn_zipWith, IH.
Qed.

(** X12.  The last time step of [behavStates], [y] and [u] never reaches the
    outputs of [Optim3.forward]: two input triples of the same shapes that
    agree on all but their last time step give the same [y_hats2] and the
    same [xNeural_states]. *)
Theorem Optim3_forward_last_step_unused {F : Type} `{Scalar F} (p : Optim3.t F)
  (xb xn dy du yh dz : nat) (behavStates y u behavStates' y' u' : tensor3 F)
  (B T : nat) :
  Optim3.constructed p xb xn dy du yh dz = true ->
  has_shape3 behavStates B T xb = true ->
  has_shape3 y B T dy = true -> has_shape3 u B T du = true ->
  has_shape3 behavStates' B T xb = true ->
  has_shape3 y' B T dy = true -> has_shape3 u' B T du = true ->
  1 <= B -> 1 <= T ->
  map (firstn (T - 1)) behavStates = map (firstn (T - 1)) behavStates' ->
  map (firstn (T - 1)) y = map (firstn (T - 1)) y' ->
  map (firstn (T - 1)) u = map (firstn (T - 1)) u' ->
  exists y_hats2 xNeural_states,
    Optim3.forward p behavStates y u = Ok (y_hats2, xNeural_states)
    /\ Optim3.forward p behavStates' y' u' = Ok (y_hats2, xNeural_states).
Proof.
  intros Hp Hb Hy Hu Hb' Hy' Hu' HB HT Eb Ey Eu.
  rewrite (Optim3_forward_after_cat p behavStates y u B T dy xb Hy Hb HB).
  rewrite (Optim3_forward_after_cat p behavStates' y' u' B T dy xb Hy' Hb' HB).
  apply (Optim1_forward_last_step_aux (Optim3_as_Optim1 p) xn (dy + xb) du dz yh
           _ u _ u' B T); auto.
  - now apply Optim3_constructed_as_Optim1.
  - now apply has_shape3_cat.
  - now apply has_shape3_cat.
  - now rewrite !map_firstn_cat, Eb, Ey.
Qed.

Lemma Optim3_forward_last_step_unused_witness :
  exists y_hats2 xNeural_states,
    Optim3.forward p3_ex behav_ex y_ex u_ex = Ok (y_hats2, xNeural_states)
    /\ Optim3.forward p3_ex behav_last_ex y_last_ex u_last_ex
       = Ok (y_hats2, xNeural_states).
Proof.
  apply (Optim3_forward_last_step_unused p3_ex 2 1 1 1 1 1
           behav_ex y_ex u_ex behav_last_ex y_last_ex u_last_ex 2 3);
    try reflexivity; lia.
Defined.

(** X13.  [Optim3.forward] reads [y] and [behavStates] through their
    concatenation only: it cannot tell where [y] ends and [behavStates]
    begins.  Two pairs with the same batch size and length whose
    concatenations along the feature axis are equal, whatever the two
    widths, give the same result. *)
Theorem Optim3_forward_concat_only {F : Type} `{Scalar F} (p : Optim3.t F)
  (behavStates y behavStates' y' u : tensor3 F) (B T wy wb wy' wb' : nat) :
  has_shape3 y B T wy = true -> has_shape3 behavStates B T wb = true ->
  has_shape3 y' B T wy' = true -> has_shape3 behavStates' B T wb' = true ->
  1 <= B ->
  zipWith (zipWith (@app F)) y behavStates = zipWith (zipWith (@app F)) y' behavStates' ->
  Optim3.forward p behavStates y u = Optim3.forward p behavStates' y' u.
Proof.
  intros Hy Hb Hy' Hb' HB Ecat.
  rewrite (Optim3_forward_after_cat p behavStates y u B T wy wb Hy Hb HB).
  rewrite (Optim3_forward_after_cat p behavStates' y' u B T wy' wb' Hy' Hb' HB).
  now rewrite Ecat.
Qed.

Lemma Optim3_forward_concat_only_witness :
  Optim3.forward p3_ex behav_ex y_ex u_ex
  = Optim3.forward p3_ex behav_narrow_ex y_wide_ex u_ex.
Proof.
  apply (Optim3_forward_concat_only p3_ex behav_ex y_ex behav_narrow_ex y_wide_ex u_ex
           2 3 1 2 2 1); try reflexivity; lia.
Defined.

(** ** An input stream with a batch size of 1 *)

Lemma mapM_repeat_ok {A B : Type} (f : A -> result B) (a : A) (b : B) (n : nat) :
  f a = Ok b -> mapM f (repeat a n) = Ok (repeat b n).
Proof.
  intros Hf. induction n as [|n IH]; simpl; [reflexivity|].
  now rewrite Hf, IH.
Qed.

Lemma mapM_repeat_err {A B : Type} (f : A -> result B) (a : A) (e : error) (n : nat) :
  f a = Err e -> 1 <= n -> mapM f (repeat a n) = Err e.
Proof.
  intros Hf Hn. destruct n as [|n]; [lia|]. simpl. now rewrite Hf.
Qed.

Lemma mapM_combine_repeat {A B C : Type} (f : A -> B -> result C) (l : list A) (v : B) :
  mapM (fun xy => f (fst xy) (snd xy)) (combine l (repeat v (length l)))
  = mapM (fun a => f a v) l.
Proof.
  induction l as [|a l IH]; simpl; [reflexivity|]. now rewrite IH.
Qed.

(** Invariant-preserving steps may be exchanged in a loop. *)
Lemma for_each_ext_inv {A S : Type} (I : S -> Prop) (body body' : A -> S -> result S)
  (ts : list A) (st : S) :
  I st ->
  (forall t s, I s -> body t s = body' t s) ->
  (forall t s s', I s -> body' t s = Ok s' -> I s') ->
  for_each body ts st = for_each body' ts st.
Proof.
  intros Hst Heq Hinv. revert st Hst.
  induction ts as [|t ts IH]; intros st Hst; simpl; [reflexivity|].
  rewrite (Heq t st Hst).
  destruct (body' t st) as [s'|e] eqn:E; simpl; [|reflexivity].
  apply IH. exact (Hinv t st s' Hst E).
Qed.

Section BroadcastInput.
Context {F : Type} `{Scalar F}.

(** Adding a one-row matrix adds that row to every row. *)
Lemma madd_broadcast_row (ak : mat F) (v : vec F) :
  madd ak [v] = madd ak (repeat v (length ak)).
Proof.
  destruct ak as [|x [|x' ak]]; try reflexivity.
  unfold madd, bcast. rewrite repeat_length, Nat.eqb_refl.
  rewrite (mapM_combine_repeat vadd (x :: x' :: ak) v). reflexivity.
Qed.

Lemma select_t_one (ub : list (vec F)) (j n : nat) :
  1 <= n ->
  (exists v, select_t [ub] j = Ok [v] /\ select_t (repeat ub n) j = Ok (repeat v n))
  \/ (select_t [ub] j = Err IndexError /\ select_t (repeat ub n) j = Err IndexError).
Proof.
  intros Hn. unfold select_t. cbn [mapM].
  destruct (nth_error ub j) as [v|] eqn:E.
  - left. exists v. split; [reflexivity|].
    apply mapM_repeat_ok. now rewrite E.
  - right. split; [reflexivity|]. apply mapM_repeat_err; [now rewrite E | exact Hn].
Qed.

Lemma linear_forward_one (L : Linear.t F) (v : vec F) (n : nat) :
  1 <= n ->
  (exists w, Linear.forward L [v] = Ok [w] /\ Linear.forward L (repeat v n) = Ok (repeat w n))
  \/ (Linear.forward L [v] = Err RuntimeError
      /\ Linear.forward L (repeat v n) = Err RuntimeError).
Proof.
  intros Hn. unfold Linear.forward. cbn [mapM].
  destruct (length v =? Linear.in_features L) eqn:E.
  - left. exists (Linear.affine L v). split; [reflexivity|].
    apply mapM_repeat_ok. now rewrite E.
  - right. split; [reflexivity|]. apply mapM_repeat_err; [now rewrite E | exact Hn].
Qed.

Lemma madd_length_eq (a k ak : mat F) :
  length a = length k -> madd a k = Ok ak -> length ak = length a.
Proof.
  intros Hl. unfold madd, bcast. rewrite (proj2 (Nat.eqb_eq _ _) Hl).
  intros Hm. apply mapM_length in Hm. rewrite Hm, length_combine. lia.
Qed.

Variables (p : Optim1.t F) (y : tensor3 F) (ub : list (vec F)).
Hypothesis Hy : 1 <= length y.

(** The loop keeps a state with one row per batch element of [y]. *)
Definition batch_of_y (st : @Optim1.loop_state F) : Prop :=
  length (fst (fst st)) = length y.

Lemma body_broadcast (j : nat) (st : @Optim1.loop_state F) :
  batch_of_y st ->
  Optim1.body p y [ub] j st = Optim1.body p y (repeat ub (length y)) j st.
Proof.
  destruct st as [[x Bs] Zs]. unfold batch_of_y. cbn [fst]. intros Hx.
  unfold Optim1.body.
  destruct (select_t y j) as [y_t|e] eqn:Ey; cbn [bind]; [|reflexivity].
  apply mapM_length in Ey.
  destruct (select_t_one ub j (length y) Hy) as [(v & -> & ->) | [-> ->]];
    cbn [bind]; [|reflexivity].
  unfold Optim1Cell.forward.
  destruct (Linear.forward _ x) as [a|e] eqn:Ea; cbn [bind]; [|reflexivity].
  destruct (Linear.forward _ y_t) as [k|e] eqn:Ek; cbn [bind]; [|reflexivity].
  apply mapM_length in Ea, Ek.
  destruct (madd a k) as [ak|e] eqn:Eak; cbn [bind]; [|reflexivity].
  apply madd_length_eq in Eak; [|lia].
  destruct (linear_forward_one (Optim1Cell.W_B (Optim1.rnn_cell p)) v (length y) Hy)
    as [(w & -> & ->) | [-> ->]]; cbn [bind]; [|reflexivity].
  rewrite madd_broadcast_row.
  replace (length ak) with (length y) by lia. reflexivity.
Qed.

Lemma body_keeps_batch (u : tensor3 F) (j : nat) (st st' : @Optim1.loop_state F) :
  length u = length y ->
  batch_of_y st -> Optim1.body p y u j st = Ok st' -> batch_of_y st'.
Proof.
  destruct st as [[x Bs] Zs]. unfold batch_of_y. cbn [fst]. intros Hu Hx.
  unfold Optim1.body.
  destruct (select_t y j) as [y_t|e] eqn:Ey; cbn [bind]; [|discriminate].
  destruct (select_t u j) as [u_t|e] eqn:Eu; cbn [bind]; [|discriminate].
  apply mapM_length in Ey, Eu.
  unfold Optim1Cell.forward.
  destruct (Linear.forward _ x) as [a|e] eqn:Ea; cbn [bind]; [|discriminate].
  destruct (Linear.forward _ y_t) as [k|e] eqn:Ek; cbn [bind]; [|discriminate].
  apply mapM_length in Ea, Ek.
  destruct (madd a k) as [ak|e] eqn:Eak; cbn [bind]; [|discriminate].
  apply madd_length_eq in Eak; [|lia].
  destruct (Linear.forward _ u_t) as [b|e] eqn:Eb; cbn [bind]; [|discriminate].
  apply mapM_length in Eb.
  destruct (madd ak b) as [x'|e] eqn:Ex; cbn [bind]; [|discriminate].
  apply madd_length_eq in Ex; [|lia].
  destruct (NonlinearOptim1CellZ.forward _ x) as [z|e]; cbn [bind]; [|discriminate].
  intros [= <-]. cbn [fst]. lia.
Qed.

Lemma Optim1_forward_broadcast_aux :
  Optim1.forward p y [ub] = Optim1.forward p y (repeat ub (length y)).
Proof.
  unfold Optim1.forward, for_range.
  rewrite (for_each_ext_inv batch_of_y (Optim1.body p y [ub])
             (Optim1.body p y (repeat ub (length y)))).
  - reflexivity.
  - unfold batch_of_y, zeros, size0. cbn [fst]. apply repeat_length.
  - intros t s Hs. now apply body_broadcast.
  - intros t s s' Hs Hb. apply (body_keeps_batch (repeat ub (length y)) t s s'); auto.
    apply repeat_length.
Qed.
End BroadcastInput.

(** X14.  An input stream [u] with a batch size of 1 is broadcast over the
    batch of [y]: [Optim1.forward] returns exactly what it returns when the
    single batch element of [u] is repeated once for every batch element of
    [y], be it a result or an error. *)
Theorem Optim1_forward_broadcast_u {F : Type} `{Scalar F} (p : Optim1.t F)
  (y : tensor3 F) (ub : list (vec F)) :
  1 <= length y ->
  Optim1.forward p y [ub] = Optim1.forward p y (repeat ub (length y)).
Proof.
  intros Hy. exact (Optim1_forward_broadcast_aux p y ub Hy).
Qed.

Lemma Optim1_forward_broadcast_u_witness :
  Optim1.forward p_ex y_ex [[[1];[0];[1]]%Z]
  = Optim1.forward p_ex y_ex (repeat [[1];[0];[1]]%Z (length y_ex)).
Proof.
  apply (Optim1_forward_broadcast_u p_ex y_ex [[1];[0];[1]]%Z). simpl. lia.
Defined.

(** ** The cells on one time step *)

Section Cells.
Context {F : Type} `{Scalar F}.

Lemma mat_as_map (m : mat F) : map (fun b => nth b m []) (seq 0 (length m)) = m.
Proof.
  exact (eq_trans (map_nth_seq (fun v => v) m []) (map_id m)).
Qed.

Lemma has_shape2_row (m : mat F) (B w b : nat) :
  has_shape2 m B w = true -> b < B -> length (nth b m []) = w.
Proof.
  intros Hm Hb. apply has_shape2_spec in Hm as [Hl Hrows].
  apply Hrows, nth_In. lia.
Qed.

Lemma rnn_cell_maps {X : Type} (A K Bm : Linear.t F) (xs dy du : nat)
  (fx fy fu : X -> vec F) (l : list X) (x y_t u_t : mat F) :
  Linear.constructed A xs xs = true ->
  Linear.constructed K dy xs = true ->
  Linear.constructed Bm du xs = true ->
  (forall a, In a l -> length (fx a) = xs) ->
  (forall a, In a l -> length (fy a) = dy) ->
  (forall a, In a l -> length (fu a) = du) ->
  x = map fx l -> y_t = map fy l -> u_t = map fu l ->
  (a <- Linear.forward A x ;;
   k <- Linear.forward K y_t ;;
   ak <- madd a k ;;
   b <- Linear.forward Bm u_t ;;
   madd ak b)
  = Ok (map (fun a => x_update A K Bm (fx a) (fy a) (fu a)) l).
Proof.
  intros HA HK HB Hfx Hfy Hfu -> -> ->.
  rewrite linear_forward_map
    by (intros a Ha; now rewrite (constructed_in_features _ _ _ HA), (Hfx a Ha)).
  cbn [bind]. rewrite linear_forward_map
    by (intros a Ha; now rewrite (constructed_in_features _ _ _ HK), (Hfy a Ha)).
  cbn [bind]. rewrite madd_map_same
    by (intros; now rewrite (affine_length _ _ _ _ HA), (affine_length _ _ _ _ HK)).
  cbn [bind]. rewrite linear_forward_map
    by (intros a Ha; now rewrite (constructed_in_features _ _ _ HB), (Hfu a Ha)).
  cbn [bind]. rewrite madd_map_same.
  2:{ intros a _. unfold vsum. rewrite zipWith_length.
      rewrite (affine_length _ _ _ _ HA), (affine_length _ _ _ _ HK),
        (affine_length _ _ _ _ HB). lia. }
  reflexivity.
Qed.

Lemma mat_as_map_of (m : mat F) (B w : nat) :
  has_shape2 m B w = true -> m = map (fun b => nth b m []) (seq 0 B).
Proof.
  intros Hm. apply has_shape2_spec in Hm as [<- _]. symmetry. apply mat_as_map.
Qed.

Lemma rnn_cell_rows (A K Bm : Linear.t F) (xs dy du : nat) (x y_t u_t : mat F) (B : nat) :
  Linear.constructed A xs xs = true ->
  Linear.constructed K dy xs = true ->
  Linear.constructed Bm du xs = true ->
  has_shape2 x B xs = true -> has_shape2 y_t B dy = true -> has_shape2 u_t B du = true ->
  (a <- Linear.forward A x ;;
   k <- Linear.forward K y_t ;;
   ak <- madd a k ;;
   b <- Linear.forward Bm u_t ;;
   madd ak b)
  = Ok (map (fun b => x_update A K Bm (nth b x []) (nth b y_t []) (nth b u_t []))
          (seq 0 B)).
Proof.
  intros HA HK HB Hx Hy Hu.
  apply (rnn_cell_maps A K Bm xs dy du
           (fun b => nth b x []) (fun b => nth b y_t []) (fun b => nth b u_t [])
           (seq 0 B)); auto.
  - intros b Hb. apply in_seq in Hb. apply (has_shape2_row x B xs); [assumption | lia].
  - intros b Hb. apply in_seq in Hb. apply (has_shape2_row y_t B dy); [assumption | lia].
  - intros b Hb. apply in_seq in Hb. apply (has_shape2_row u_t B du); [assumption | lia].
  - now apply mat_as_map_of with (w := xs).
  - now apply mat_as_map_of with (w := dy).
  - now apply mat_as_map_of with (w := du).
Qed.

Lemma readout_cell_rows (lin lin2 : Linear.t F) (xs o : nat) (x : mat F) (B : nat) :
  Linear.constructed lin xs xs = true ->
  Linear.constructed lin2 xs o = true ->
  has_shape2 x B xs = true ->
  (z <- Linear.forward lin x ;;
   let z := map (map relu) z in
   z <- Linear.forward lin2 z ;;
   Ok (map (map sigmoid) z))
  = Ok (map (decoder lin lin2) x).
Proof.
  intros H1 H2 Hx. apply has_shape2_spec in Hx as [_ Hrows].
  rewrite <- (map_id x) at 1. rewrite linear_forward_map.
  2:{ intros v Hv. now rewrite (constructed_in_features _ _ _ H1), (Hrows v Hv). }
  cbn [bind]. rewrite map_map, linear_forward_map.
  2:{ intros v _. rewrite length_map, (affine_length _ _ _ _ H1).
      symmetry; eapply constructed_in_features; eassumption. }
  cbn [bind]. now rewrite map_map.
Qed.
End Cells.

(** X15.  One step of the recurrent cells.  On a state of shape (B, Dx) and
    inputs of shapes (B, Dy) and (B, Du), [Optim1Cell.forward] returns, for
    every batch element [b], the row [A x[b] + K y[b] + B u[b]] (each map
    with its bias): the rows are updated independently and nothing is
    broadcast.  [Optim3Cell.forward] does the same with a driving row of
    width Dy + Dxb. *)
Theorem rnn_cell_forward_rows {F : Type} `{Scalar F} (c1 : Optim1Cell.t F)
  (c3 : Optim3Cell.t F) (xb xn dy du : nat) (x1 x3 y_t d_t u_t : mat F) (B : nat) :
  Optim1Cell.constructed c1 xb dy du = true ->
  Optim3Cell.constructed c3 xb xn dy du = true ->
  has_shape2 x1 B xb = true -> has_shape2 x3 B xn = true ->
  has_shape2 y_t B dy = true -> has_shape2 d_t B (dy + xb) = true ->
  has_shape2 u_t B du = true ->
  Optim1Cell.forward c1 x1 y_t u_t
  = Ok (map (fun b => x_update (Optim1Cell.W_A c1) (Optim1Cell.W_K c1) (Optim1Cell.W_B c1)
                        (nth b x1 []) (nth b y_t []) (nth b u_t []))
          (seq 0 B))
  /\ Optim3Cell.forward c3 x3 d_t u_t
     = Ok (map (fun b => x_update (Optim3Cell.W_A c3) (Optim3Cell.W_K c3)
                           (Optim3Cell.W_B c3)
                           (nth b x3 []) (nth b d_t []) (nth b u_t []))
             (seq 0 B)).
Proof.
  intros Hc1 Hc3 Hx1 Hx3 Hy Hd Hu.
  assert (H1 : Linear.constructed (Optim1Cell.W_A c1) xb xb = true
               /\ Linear.constructed (Optim1Cell.W_K c1) dy xb = true
               /\ Linear.constructed (Optim1Cell.W_B c1) du xb = true).
  { revert Hc1. unfold Optim1Cell.constructed. rewrite !andb_true_iff. tauto. }
  assert (H3 : Linear.constructed (Optim3Cell.W_A c3) xn xn = true
               /\ Linear.constructed (Optim3Cell.W_K c3) (dy + xb) xn = true
               /\ Linear.constructed (Optim3Cell.W_B c3) du xn = true).
  { revert Hc3. unfold Optim3Cell.constructed. rewrite !andb_true_iff. tauto. }
  destruct H1 as (HA1 & HK1 & HB1). destruct H3 as (HA3 & HK3 & HB3).
  split.
  - exact (rnn_cell_rows _ _ _ xb dy du x1 y_t u_t B HA1 HK1 HB1 Hx1 Hy Hu).
  - exact (rnn_cell_rows _ _ _ xn (dy + xb) du x3 d_t u_t B HA3 HK3 HB3 Hx3 Hd Hu).
Qed.

Lemma rnn_cell_forward_rows_witness :
  Optim1Cell.forward (Optim1.rnn_cell p_ex) [[4;3];[3;-1]]%Z [[2];[1]]%Z [[0];[2]]%Z
  = Ok (map (fun b => x_update (Optim1Cell.W_A (Optim1.rnn_cell p_ex))
                        (Optim1Cell.W_K (Optim1.rnn_cell p_ex))
                        (Optim1Cell.W_B (Optim1.rnn_cell p_ex))
                        (nth b [[4;3];[3;-1]]%Z []) (nth b [[2];[1]]%Z [])
                        (nth b [[0];[2]]%Z []))
          (seq 0 2))
  /\ Optim3Cell.forward (Optim3.rnn_cell p3_ex) [[3];[3]]%Z [[2;4;3];[1;3;-1]]%Z
       [[0];[2]]%Z
     = Ok (map (fun b => x_update (Optim3Cell.W_A (Optim3.rnn_cell p3_ex))
                           (Optim3Cell.W_K (Optim3.rnn_cell p3_ex))
                           (Optim3Cell.W_B (Optim3.rnn_cell p3_ex))
                           (nth b [[3];[3]]%Z []) (nth b [[2;4;3];[1;3;-1]]%Z [])
                           (nth b [[0];[2]]%Z []))
             (seq 0 2)).
Proof.
  apply (rnn_cell_forward_rows (Optim1.rnn_cell p_ex) (Optim3.rnn_cell p3_ex) 2 1 1 1);
    reflexivity.
Defined.

(** X16.  One step of the readout cells.  On a state of shape (B, Dx),
    [NonlinearOptim1CellZ.forward] and [NonlinearOptim3CellY.forward] return
    the decoder sigmoid(lin2(relu(lin1(.)))) of every row, so row [b] of the
    prediction depends on row [b] of the state alone. *)
Theorem readout_cell_forward_rows {F : Type} `{Scalar F} (c1 : NonlinearOptim1CellZ.t F)
  (c3 : NonlinearOptim3CellY.t F) (xb dz xn yh : nat) (x1 x3 : mat F) (B : nat) :
  NonlinearOptim1CellZ.constructed c1 xb dz = true ->
  NonlinearOptim3CellY.constructed c3 xn yh = true ->
  has_shape2 x1 B xb = true -> has_shape2 x3 B xn = true ->
  NonlinearOptim1CellZ.forward c1 x1
  = Ok (map (decoder (NonlinearOptim1CellZ.Cz1_lin c1) (NonlinearOptim1CellZ.Cz1_lin2 c1))
          x1)
  /\ NonlinearOptim3CellY.forward c3 x3
     = Ok (map (decoder (NonlinearOptim3CellY.Cy2_lin c3)
                  (NonlinearOptim3CellY.Cy2_lin2 c3)) x3).
Proof.
  intros Hc1 Hc3 Hx1 Hx3.
  assert (H1 : Linear.constructed (NonlinearOptim1CellZ.Cz1_lin c1) xb xb = true
               /\ Linear.constructed (NonlinearOptim1CellZ.Cz1_lin2 c1) xb dz = true).
  { revert Hc1. unfold NonlinearOptim1CellZ.constructed. now rewrite andb_true_iff. }
  assert (H3 : Linear.constructed (NonlinearOptim3CellY.Cy2_lin c3) xn xn = true
               /\ Linear.constructed (NonlinearOptim3CellY.Cy2_lin2 c3) xn yh = true).
  { revert Hc3. unfold NonlinearOptim3CellY.constructed. now rewrite andb_true_iff. }
  destruct H1 as [H11 H12]. destruct H3 as [H31 H32]. split.
  - exact (readout_cell_rows _ _ xb dz x1 B H11 H12 Hx1).
  - exact (readout_cell_rows _ _ xn yh x3 B H31 H32 Hx3).
Qed.

Lemma readout_cell_forward_rows_witness :
  NonlinearOptim1CellZ.forward (Optim1.nonlinear_cellZ p_ex) [[4;3];[3;-1]]%Z
  = Ok (map (decoder (NonlinearOptim1CellZ.Cz1_lin (Optim1.nonlinear_cellZ p_ex))
               (NonlinearOptim1CellZ.Cz1_lin2 (Optim1.nonlinear_cellZ p_ex)))
          [[4;3];[3;-1]]%Z)
  /\ NonlinearOptim3CellY.forward (Optim3.nonlinear_cellY p3_ex) [[3];[-60]]%Z
     = Ok (map (decoder (NonlinearOptim3CellY.Cy2_lin (Optim3.nonlinear_cellY p3_ex))
                  (NonlinearOptim3CellY.Cy2_lin2 (Optim3.nonlinear_cellY p3_ex)))
             [[3];[-60]]%Z).
Proof.
  apply (readout_cell_forward_rows (Optim1.nonlinear_cellZ p_ex)
           (Optim3.nonlinear_cellY p3_ex) 2 1 1 1 _ _ 2); reflexivity.
Defined.
